(** * Reconciliation of the product / location / price feed

    A shallow embedding of [src/db/CRUD.py] ([update_db],
    [get_all_products]) over the tables declared in
    [src/db/Models/product_models.py], followed by the properties of the
    reconciliation run.

    The SQLAlchemy session is modelled by explicit state passing: a
    [Session] holds the three tables, every statement of [update_db] that
    writes to the database is a function from [Session] to [Session]. *)

From Stdlib Require Import ZArith List String Ascii Bool Lia.
From Stdlib Require Import Floats.SpecFloat.
From stdpp Require Import base gmap sets list strings.

Local Open Scope string_scope.
Local Open Scope list_scope.
Local Open Scope Z_scope.

(** ** Python values used by the code *)

Module Py.

(** Characters are code points below 256. [is_space] is [str.isspace]
    on that range: TAB..CR, FS..US, SPACE, NEL and NBSP. *)
Definition is_space (c : ascii) : bool :=
  let n := Z.of_nat (nat_of_ascii c) in
  ((9 <=? n) && (n <=? 13)) || ((28 <=? n) && (n <=? 32))
  || (n =? 133) || (n =? 160).

Fixpoint lstrip (s : string) : string :=
  match s with
  | EmptyString => EmptyString
  | String c s' => if is_space c then lstrip s' else s
  end.

Fixpoint rstrip (s : string) : string :=
  match s with
  | EmptyString => EmptyString
  | String c s' =>
      match rstrip s' with
      | EmptyString => if is_space c then EmptyString else String c EmptyString
      | t => String c t
      end
  end.

(** [str.strip()] with no argument. *)
Definition strip (s : string) : string := rstrip (lstrip s).

Definition digit_of (c : ascii) : option Z :=
  let n := Z.of_nat (nat_of_ascii c) in
  if (48 <=? n) && (n <=? 57) then Some (n - 48) else None.

(** Decimal digits, a single underscore allowed between two digits.
    [after_digit] tells whether the previous character was a digit. *)
Fixpoint digits (acc : Z) (after_digit : bool) (s : string) : option Z :=
  match s with
  | EmptyString => if after_digit then Some acc else None
  | String c s' =>
      match digit_of c with
      | Some d => digits (10 * acc + d) true s'
      | None =>
          if Ascii.eqb c "_"%char
          then (if after_digit then digits acc false s' else None)
          else None
      end
  end.

(** [int(s)] for a string, base 10: surrounding whitespace is dropped,
    one optional sign, then the digits. [None] stands for [ValueError]. *)
Definition int_of_str (s : string) : option Z :=
  match strip s with
  | String "+"%char t => digits 0 false t
  | String "-"%char t => Z.opp <$> digits 0 false t
  | t => digits 0 false t
  end.

(** [int(x)] for a float: the fractional part is discarded (rounding
    toward zero); infinities raise [OverflowError] and NaN raises
    [ValueError], both rendered as [None]. *)
Definition int_of_float (f : spec_float) : option Z :=
  match f with
  | S754_zero _ => Some 0
  | S754_infinity _ => None
  | S754_nan => None
  | S754_finite sgn m e =>
      let mag := if 0 <=? e then Z.shiftl (Z.pos m) e
                 else Z.shiftr (Z.pos m) (- e) in
      Some (if sgn then - mag else mag)
  end.

End Py.

(** ** The validated feed records

    Modelled from the spec: [src/common/Schemas/location_schemas.py] is not
    among the sources. A record carries a nested product name, a nested
    location address and a price value that is numeric or a numeric
    string. The strings of a validated record are trimmed (see [trimmed]
    below); the code of [update_db] does not rely on it, and the
    definitions here accept any string. *)

Inductive PriceValue :=
| PInt (n : Z)
| PFloat (f : spec_float)
| PStr (s : string).

Record ProductSchema := { name : string }.
Record LocationSchema := { address : string }.
Record LocationProductSchema := {
  product : ProductSchema;
  location : LocationSchema;
  price : PriceValue
}.

(** [int(item.price)]; [None] when the call raises. *)
Definition int (v : PriceValue) : option Z :=
  match v with
  | PInt n => Some n
  | PFloat f => Py.int_of_float f
  | PStr s => Py.int_of_str s
  end.

(** ** Tables ([src/db/Models/product_models.py]) *)

Module Product.
Record t := { id : Z; name : string }.
End Product.

Module Location.
Record t := { id : Z; address : string; phone : option string }.
End Location.

Module LocationProduct.
Record t := { id : Z; product_id : Z; location_id : Z; price : Z }.
End LocationProduct.

(** A table is its rows in storage order together with the state of the
    key generator behind [autoincrement=True]. *)
Record Table (R : Type) := { rows : list R; seq : Z }.
Arguments rows {R} _.
Arguments seq {R} _.

(** How the engine picks the next primary key. The engine is configured
    outside the sources, so both common behaviours are covered:
    [Serial] draws from a counter that deletions do not rewind, [Rowid]
    takes the largest key present plus one. *)
Inductive KeyPolicy := Serial | Rowid.

Definition max_key (ids : list Z) : Z := fold_right Z.max 0 ids.

Definition next_key {R} (pol : KeyPolicy) (key : R -> Z) (t : Table R) : Z :=
  match pol with
  | Serial => seq t + 1
  | Rowid => max_key (map key (rows t)) + 1
  end.

(** One INSERT: the row built from the freshly drawn key goes last. *)
Definition insert {R} (pol : KeyPolicy) (key : R -> Z) (mk : Z -> R)
    (t : Table R) : Table R :=
  let k := next_key pol key t in
  {| rows := rows t ++ [mk k];
     seq := match pol with Serial => k | Rowid => seq t end |}.

(** [DELETE FROM t]: the rows go, the key generator stays. *)
Definition delete_all {R} (t : Table R) : Table R :=
  {| rows := []; seq := seq t |}.

Record Session := {
  products : Table Product.t;
  locations : Table Location.t;
  location_products : Table LocationProduct.t
}.

(** [Product(name=p_name)], [Location(address=ph_addr)] and
    [LocationProduct(product_id=.., location_id=.., price=..)] once the
    engine has drawn the key [k]. *)
Definition new_product (p_name : string) (k : Z) : Product.t :=
  {| Product.id := k; Product.name := p_name |}.

Definition new_location (ph_addr : string) (k : Z) : Location.t :=
  {| Location.id := k; Location.address := ph_addr; Location.phone := None |}.

Definition new_link (l : Z * Z * Z) (k : Z) : LocationProduct.t :=
  {| LocationProduct.id := k; LocationProduct.product_id := l.1.1;
     LocationProduct.location_id := l.1.2; LocationProduct.price := l.2 |}.

Section Reconcile.

Variable pol : KeyPolicy.

(** [db.bulk_save_objects(objs)]: one INSERT per pending object, in
    list order. A pending object carries its columns but no key yet;
    [mk o k] is the row stored for the object [o] under the key [k]. *)
Definition bulk_save_objects {A R} (key : R -> Z) (mk : A -> Z -> R)
    (objs : list A) (t : Table R) : Table R :=
  fold_left (fun t o => insert pol key (mk o) t) objs t.

(** [{p.name: p.id for p in products}]: a later row overwrites an
    earlier one with the same name. *)
Definition product_ids (ps : list Product.t) : gmap string Z :=
  fold_left (fun m p => <[Product.name p := Product.id p]> m) ps ∅.

Definition location_ids (ls : list Location.t) : gmap string Z :=
  fold_left (fun m l => <[Location.address l := Location.id l]> m) ls ∅.

(** *** Pass 1: queue the products and locations not yet stored *)

Record Pass1 := {
  new_product_names : gset string;
  new_location_addresses : gset string;
  new_products : list string;
  new_locations : list string
}.

Definition pass1_init : Pass1 :=
  {| new_product_names := ∅; new_location_addresses := ∅;
     new_products := []; new_locations := [] |}.

Definition pass1_step (existing_products existing_locations : gmap string Z)
    (s : Pass1) (item : LocationProductSchema) : Pass1 :=
  let p_name := name (product item) in
  let ph_addr := address (location item) in
  let s1 :=
    if bool_decide (existing_products !! p_name = None)
       && bool_decide (p_name ∉ new_product_names s)
    then {| new_product_names := {[p_name]} ∪ new_product_names s;
            new_location_addresses := new_location_addresses s;
            new_products := new_products s ++ [p_name];
            new_locations := new_locations s |}
    else s in
  if bool_decide (existing_locations !! ph_addr = None)
     && bool_decide (ph_addr ∉ new_location_addresses s1)
  then {| new_product_names := new_product_names s1;
          new_location_addresses := {[ph_addr]} ∪ new_location_addresses s1;
          new_products := new_products s1;
          new_locations := new_locations s1 ++ [ph_addr] |}
  else s1.

Definition pass1 (existing_products existing_locations : gmap string Z)
    (items : list LocationProductSchema) : Pass1 :=
  fold_left (pass1_step existing_products existing_locations) items pass1_init.

(** *** Pass 2: build the deduplicated links *)

Record Pass2 := {
  seen_links : gset (Z * Z);
  pharm_prod_prices : list (Z * Z * Z);
  counter : Z
}.

Definition pass2_init : Pass2 :=
  {| seen_links := ∅; pharm_prod_prices := []; counter := 0 |}.

(** The key under which pass 2 files a record, [None] when one of the
    [continue] statements before the duplicate test is taken: the price
    does not convert, a name is not in its dictionary, or the key found
    is falsy (zero). *)
Definition link_of (existing_products existing_locations : gmap string Z)
    (item : LocationProductSchema) : option (Z * Z * Z) :=
  match int (price item) with
  | None => None
  | Some price_product =>
      let p_name := Py.strip (name (product item)) in
      let ph_addr := Py.strip (address (location item)) in
      match existing_products !! p_name, existing_locations !! ph_addr with
      | Some product_id, Some location_id =>
          if (product_id =? 0) || (location_id =? 0) then None
          else Some (product_id, location_id, price_product)
      | _, _ => None
      end
  end.

Definition pass2_step (existing_products existing_locations : gmap string Z)
    (s : Pass2) (item : LocationProductSchema) : Pass2 :=
  match link_of existing_products existing_locations item with
  | None => s
  | Some l =>
      if bool_decide (l.1 ∈ seen_links s) then s
      else {| seen_links := {[l.1]} ∪ seen_links s;
              pharm_prod_prices := pharm_prod_prices s ++ [l];
              counter := counter s + 1 |}
  end.

Definition pass2 (existing_products existing_locations : gmap string Z)
    (items : list LocationProductSchema) : Pass2 :=
  fold_left (pass2_step existing_products existing_locations) items pass2_init.

(** *** [update_db]

    [pydantic_list_of_products] is the validated list; fetching and
    validating the document happen before the first database access.
    The index rebuild at the end reads the products and writes nothing
    to the session, and the value returned is [counter]. *)
Definition update_db (db : Session)
    (pydantic_list_of_products : list LocationProductSchema) : Session * Z :=
  let existing_products := product_ids (rows (products db)) in
  let existing_locations := location_ids (rows (locations db)) in
  let p1 := pass1 existing_products existing_locations pydantic_list_of_products in
  let db1 :=
    {| products := bulk_save_objects Product.id new_product (new_products p1) (products db);
       locations := bulk_save_objects Location.id new_location (new_locations p1) (locations db);
       location_products := location_products db |} in
  let existing_products := product_ids (rows (products db1)) in
  let existing_locations := location_ids (rows (locations db1)) in
  let db2 :=
    {| products := products db1;
       locations := locations db1;
       location_products := delete_all (location_products db1) |} in
  let p2 := pass2 existing_products existing_locations pydantic_list_of_products in
  let db3 :=
    {| products := products db2;
       locations := locations db2;
       location_products :=
         bulk_save_objects LocationProduct.id new_link
           (pharm_prod_prices p2) (location_products db2) |} in
  (db3, counter p2).

End Reconcile.

(** [get_all_products]: [None] when the query result is falsy (empty). *)
Definition get_all_products (db : Session) : option (list string) :=
  match rows (products db) with
  | [] => None
  | ps => Some (map Product.name ps)
  end.

(** ** Sample batches and stores *)

Definition rec (p a : string) (v : PriceValue) : LocationProductSchema :=
  {| product := {| name := p |}; location := {| address := a |}; price := v |}.

Definition empty_table {R} : Table R := {| rows := []; seq := 0 |}.

Definition empty_db : Session :=
  {| products := empty_table; locations := empty_table;
     location_products := empty_table |}.

Definition aspirin_feed : list LocationProductSchema :=
  [ rec "Aspirin" "Main St" (PStr "10"); rec "Aspirin" "Main St" (PStr "20") ].

Definition padded_feed : list LocationProductSchema :=
  [ rec " Aspirin" "Main St" (PInt 10); rec "Ibuprofen" "Main St" (PInt 7) ].

(** The columns of a link row other than its own key. *)
Definition link_data (r : LocationProduct.t) : Z * Z * Z :=
  (LocationProduct.product_id r, LocationProduct.location_id r,
   LocationProduct.price r).

Definition link_key (r : LocationProduct.t) : Z * Z :=
  (LocationProduct.product_id r, LocationProduct.location_id r).

(** The link pass 2 of the run [update_db pol db feed] derives from a
    record: the dictionaries are the ones rebuilt after pass 1, which are
    those of the tables the run leaves behind. *)
Definition resolved (pol : KeyPolicy) (db : Session)
    (feed : list LocationProductSchema) (item : LocationProductSchema)
    : option (Z * Z * Z) :=
  let db' := (update_db pol db feed).1 in
  link_of (product_ids (rows (products db')))
          (location_ids (rows (locations db'))) item.

(** The primary keys of a table as the engine maintains them: pairwise
    distinct, positive, and under [Serial] not above the counter. *)
Definition keys_ok {R} (pol : KeyPolicy) (key : R -> Z) (t : Table R) : Prop :=
  NoDup (map key (rows t)) /\
  Forall (fun r => 0 < key r) (rows t) /\
  match pol with
  | Serial => 0 <= seq t /\ Forall (fun r => key r <= seq t) (rows t)
  | Rowid => True
  end.


(** ** Auxiliary notions for the statements and proofs *)

(** What one iteration of the first loop does to the product queue, and
    likewise to the location queue: the key is queued when it is neither
    stored nor queued. *)
Definition enqueue (existing : gmap string Z)
    (q : gset string * list string) (n : string) : gset string * list string :=
  if bool_decide (existing !! n = None) && bool_decide (n ∉ q.1)
  then ({[n]} ∪ q.1, q.2 ++ [n]) else q.

Definition product_queue (s : Pass1) := (new_product_names s, new_products s).
Definition location_queue (s : Pass1) := (new_location_addresses s, new_locations s).

(** The set mirrors the list, the list has no repetition and none of
    its entries is a key of the dictionary. *)
Definition queue_ok (existing : gmap string Z)
    (q : gset string * list string) : Prop :=
  (forall n, n ∈ q.1 <-> n ∈ q.2) /\ NoDup q.2 /\
  (forall n, n ∈ q.2 -> existing !! n = None).

(** Pass 2, run with the dictionaries [ep] and [el], files [item] under
    the key [k]. *)
Definition has_key (ep el : gmap string Z) (item : LocationProductSchema)
    (k : Z * Z) : Prop :=
  exists l, link_of ep el item = Some l /\ l.1 = k.

(** The set mirrors the keys of the list, no key is listed twice and
    the counter is the length of the list. *)
Definition links_ok (s : Pass2) : Prop :=
  (forall k, k ∈ seen_links s <-> k ∈ map fst (pharm_prod_prices s)) /\
  NoDup (map fst (pharm_prod_prices s)) /\
  counter s = Z.of_nat (length (pharm_prod_prices s)).

(** [item] is filed by pass 2 of the run under the key [k]. *)
Definition filed_under (pol : KeyPolicy) (db : Session)
    (feed : list LocationProductSchema) (item : LocationProductSchema)
    (k : Z * Z) : Prop :=
  exists l, resolved pol db feed item = Some l /\ l.1 = k.

(** The session with other rows in the link table. *)
Definition with_link_rows (db : Session) (rs : list LocationProduct.t) : Session :=
  {| products := products db; locations := locations db;
     location_products := {| rows := rs; seq := seq (location_products db) |} |}.

Definition two_feed : list LocationProductSchema :=
  [ rec "Aspirin" "Main St" (PStr "10"); rec "Ibuprofen" "Main St" (PStr "7") ].

Definition one_feed : list LocationProductSchema :=
  [ rec "Aspirin" "Main St" (PStr "12") ].

Definition three_feed : list LocationProductSchema :=
  [ rec "Ibuprofen" "Main St" (PStr "7");
    rec "Aspirin" "Main St" (PStr "10");
    rec "Aspirin" "Main St" (PStr "20") ].

(** The store left by a first run, fed a batch that repeats a stored
    name and brings a new one twice. *)
Definition mixed_feed : list LocationProductSchema :=
  [ rec "Aspirin" "Main St" (PInt 11);
    rec "Paracetamol" "Oak Ave" (PInt 5);
    rec "Paracetamol" "Main St" (PInt 6) ].

Definition negative_feed : list LocationProductSchema :=
  [ rec "Aspirin" "Main St" (PInt (-5)); rec "Ibuprofen" "Main St" (PStr "-3") ].

(** 10.5 as a float: 21 * 2^-1. *)
Definition ten_and_a_half : spec_float := S754_finite false 21 (-1).

Definition float_feed : list LocationProductSchema :=
  [ rec "Aspirin" "Main St" (PFloat ten_and_a_half) ].

Definition stocked_db : Session := (update_db Serial empty_db two_feed).1.

Definition bad_record : LocationProductSchema :=
  rec "Paracetamol" "Oak Ave" (PStr "abc").

(** The link table of the run holds one row for the pair of [l], and
    the row carries [l]: product key, location key and price. *)
Definition sole_link (pol : KeyPolicy) (db : Session)
    (feed : list LocationProductSchema) (l : Z * Z * Z) : Prop :=
  exists row,
    row ∈ rows (location_products (update_db pol db feed).1) /\
    link_data row = l /\
    forall row', row' ∈ rows (location_products (update_db pol db feed).1) ->
      link_key row' = l.1 -> row' = row.

(** The claim C3 as it is worded: the entry that survives for a pair is
    the link of the last record of the batch filed under it. *)
Definition last_match_claim (pol : KeyPolicy) (db : Session)
    (feed : list LocationProductSchema) : Prop :=
  forall pre c post l,
    feed = pre ++ c :: post ->
    resolved pol db feed c = Some l ->
    (forall c', c' ∈ post -> ¬ filed_under pol db feed c' l.1) ->
    sole_link pol db feed l.

(** The claim C6 as it is worded, first half: no row of the link table
    has a negative price after the run. *)
Definition nonneg_price_claim (pol : KeyPolicy) (db : Session)
    (feed : list LocationProductSchema) : Prop :=
  forall row, row ∈ rows (location_products (update_db pol db feed).1) ->
    0 <= LocationProduct.price row.

(** The claim C5 as it is worded: a second run over the same batch
    leaves the rows of the three tables as the first run left them and
    returns the same count. *)
Definition same_store_claim (pol : KeyPolicy) (db : Session)
    (feed : list LocationProductSchema) : Prop :=
  let r1 := update_db pol db feed in
  let r2 := update_db pol r1.1 feed in
  rows (products r2.1) = rows (products r1.1) /\
  rows (locations r2.1) = rows (locations r1.1) /\
  rows (location_products r2.1) = rows (location_products r1.1) /\
  r2.2 = r1.2.

(** Whitespace only, a first character that is whitespace, a last
    character that is whitespace. *)
Fixpoint all_space (s : string) : bool :=
  match s with
  | EmptyString => true
  | String c s' => Py.is_space c && all_space s'
  end.

Definition starts_with_space (s : string) : bool :=
  match s with
  | EmptyString => false
  | String c _ => Py.is_space c
  end.

Fixpoint ends_with_space (s : string) : bool :=
  match s with
  | EmptyString => false
  | String c EmptyString => Py.is_space c
  | String _ s' => ends_with_space s'
  end.

(** A name with a trailing blank and an address with a leading one. *)
Definition trailing_feed : list LocationProductSchema :=
  [ rec "Aspirin " " Main St" (PInt 10); rec "Ibuprofen" "Main St" (PInt 7) ].

(** ** The read queries of [src/db/CRUD.py] *)

Module Sql.

(** The engine is configured outside the sources, and [ilike] is not the
    same test on every engine; two behaviours are covered. [Postgres]
    has a native ILIKE: it folds the letters of the locale (here the
    ASCII and the Latin-1 capitals) and reads a backslash in the pattern
    as the escape character. [Sqlite] is given [lower(x) LIKE lower(p)]:
    only the ASCII capitals are folded and LIKE has no escape character. *)
Inductive Dialect := Postgres | Sqlite.

Definition lower_ascii (c : ascii) : ascii :=
  let n := nat_of_ascii c in
  if ((65 <=? n) && (n <=? 90))%nat then ascii_of_nat (n + 32) else c.

Definition lower_latin1 (c : ascii) : ascii :=
  let n := nat_of_ascii c in
  if (((65 <=? n) && (n <=? 90))
      || ((192 <=? n) && (n <=? 222) && negb (n =? 215)))%nat
  then ascii_of_nat (n + 32) else c.

Definition fold (d : Dialect) (c : ascii) : ascii :=
  match d with
  | Postgres => lower_latin1 c
  | Sqlite => lower_ascii c
  end.

Fixpoint fold_str (d : Dialect) (s : string) : string :=
  match s with
  | EmptyString => EmptyString
  | String c s' => String (fold d c) (fold_str d s')
  end.

Definition escape (d : Dialect) : option ascii :=
  match d with
  | Postgres => Some "\"%char
  | Sqlite => None
  end.

Definition is_escape (esc : option ascii) (c : ascii) : bool :=
  match esc with
  | Some e => Ascii.eqb c e
  | None => false
  end.

(** [s LIKE p]: [%] stands for any run of characters, [_] for any one
    character, and the character after the escape character stands for
    itself. A pattern that ends in the escape character is refused by
    the engine; it matches nothing here, and the patterns built below
    end in [%]. *)
Fixpoint like (esc : option ascii) (p : string) : string -> bool :=
  match p with
  | EmptyString =>
      fun s => match s with EmptyString => true | String _ _ => false end
  | String c p' =>
      if is_escape esc c then
        match p' with
        | EmptyString => fun _ => false
        | String x p'' =>
            fun s =>
              match s with
              | EmptyString => false
              | String d s' => Ascii.eqb x d && like esc p'' s'
              end
        end
      else if Ascii.eqb c "%"%char then
        fix any (s : string) : bool :=
          like esc p' s
          || match s with EmptyString => false | String _ s' => any s' end
      else
        fun s =>
          match s with
          | EmptyString => false
          | String d s' =>
              (Ascii.eqb c "_"%char || Ascii.eqb c d) && like esc p' s'
          end
  end.

(** [column.ilike(p)]: both sides folded, then LIKE. *)
Definition ilike (d : Dialect) (p s : string) : bool :=
  like (escape d) (fold_str d p) (fold_str d s).

(** The string does not hold the escape character. *)
Fixpoint no_escape (esc : option ascii) (s : string) : bool :=
  match s with
  | EmptyString => true
  | String c s' => negb (is_escape esc c) && no_escape esc s'
  end.

End Sql.

(** [str.lower()] on code points below 256: the ASCII capitals and the
    Latin-1 capitals (all of 192..222 but the multiplication sign). *)
Definition py_lower_char (c : ascii) : ascii :=
  let n := nat_of_ascii c in
  if (((65 <=? n) && (n <=? 90))
      || ((192 <=? n) && (n <=? 222) && negb (n =? 215)))%nat
  then ascii_of_nat (n + 32) else c.

Fixpoint py_lower (s : string) : string :=
  match s with
  | EmptyString => EmptyString
  | String c s' => String (py_lower_char c) (py_lower s')
  end.

(** The string holds neither of the two LIKE wildcards. *)
Fixpoint no_wildcard (s : string) : bool :=
  match s with
  | EmptyString => true
  | String c s' =>
      negb (Ascii.eqb c "%"%char) && negb (Ascii.eqb c "_"%char) && no_wildcard s'
  end.

(** The string holds ASCII characters only (code points below 128), on
    which [py_lower] is [str.lower()] whatever the alphabet. *)
Fixpoint ascii_only (s : string) : bool :=
  match s with
  | EmptyString => true
  | String c s' => (nat_of_ascii c <? 128)%nat && ascii_only s'
  end.

(** The f-string ["%{product_name}%"]. *)
Definition contains_pattern (product_name : string) : string :=
  String "%"%char (String.append product_name "%").

(** [Product.name.ilike(f"%{product_name}%")] as a test on a row. *)
Definition name_ilike (d : Sql.Dialect) (product_name : string)
    (p : Product.t) : bool :=
  Sql.ilike d (contains_pattern product_name) (Product.name p).

(** The rows of [select(Location).join(LocationProduct, Location.id ==
    LocationProduct.location_id).where(LocationProduct.product_id == k)]:
    one location per matching link row. *)
Definition locations_of_product (db : Session) (k : Z) : list Location.t :=
  l ← rows (locations db);
  r ← rows (location_products db);
  if (Location.id l =? LocationProduct.location_id r)
     && (LocationProduct.product_id r =? k)
  then [l] else [].

(** [get_all_locations_by_product_name]: [db.scalar] keeps the first row
    of the product query, or [None]. *)
Definition get_all_locations_by_product_name (d : Sql.Dialect) (db : Session)
    (product_name : string) : list Location.t :=
  match List.find (name_ilike d product_name) (rows (products db)) with
  | None => []
  | Some product => locations_of_product db (Product.id product)
  end.

(** [get_product_price]: the product by pattern, the location by its
    exact address, then the link row of the two keys. *)
Definition get_product_price (d : Sql.Dialect) (db : Session)
    (product_name location_address : string) : option Z :=
  match List.find (name_ilike d product_name) (rows (products db)) with
  | None => None
  | Some product =>
      match List.find
              (fun l => String.eqb (Location.address l) location_address)
              (rows (locations db)) with
      | None => None
      | Some location =>
          match List.find
                  (fun r =>
                     (LocationProduct.product_id r =? Product.id product)
                     && (LocationProduct.location_id r =? Location.id location))
                  (rows (location_products db)) with
          | None => None
          | Some location_product =>
              Some (LocationProduct.price location_product)
          end
      end
  end.

(** [get_products_by_name]: [products] is the result object of
    [db.scalars], which is truthy whatever it yields, so the final
    [return None] is not reached. *)
Definition get_products_by_name (d : Sql.Dialect) (db : Session)
    (product_name : string) : option (list string) :=
  Some (map Product.name
          (List.filter (name_ilike d (py_lower product_name))
             (rows (products db)))).

(** [Eclair] with the Latin-1 capital E acute (code point 201) and with
    the small one (233) followed by capitals. *)
Definition eclair : string := String "201"%char "clair".
Definition eclair_query : string := String "233"%char "CLAIR".

(** A product whose name holds a backslash, and one with a Latin-1
    capital. *)
Definition odd_feed : list LocationProductSchema :=
  [ rec "a\b" "Main St" (PInt 3); rec eclair "Main St" (PInt 1) ].

Definition odd_names_db : Session := (update_db Serial empty_db odd_feed).1.

(** ** Small runs *)

Example int_of_str_cases :
  map Py.int_of_str
    ["10"; " 12 "; "-5"; "+7"; "1_000"; "0010"; "1__0"; "_1"; "1_"; ""; "10.5";
     "abc"; "+ 5"]
  = [Some 10; Some 12; Some (-5); Some 7; Some 1000; Some 10; None; None; None;
     None; None; None; None].
Proof. reflexivity. Qed.

Example strip_cases :
  map Py.strip ["  a b  "; ""; "   "; "x"; " Aspirin"] = ["a b"; ""; ""; "x"; "Aspirin"].
Proof. reflexivity. Qed.

Example int_of_float_cases :
  map Py.int_of_float
    [ten_and_a_half; S754_finite true 21 (-1); S754_finite false 3 2;
     S754_zero true; S754_infinity false; S754_nan]
  = [Some 10; Some (-10); Some 12; Some 0; None; None].
Proof. reflexivity. Qed.

(** The record with the padded name gets its product row, and no link. *)
Example padded_run :
  update_db Serial empty_db padded_feed
  = ({| products :=
          {| rows := [ {| Product.id := 1; Product.name := " Aspirin" |};
                       {| Product.id := 2; Product.name := "Ibuprofen" |} ];
             seq := 2 |};
        locations :=
          {| rows := [ {| Location.id := 1; Location.address := "Main St";
                          Location.phone := None |} ];
             seq := 1 |};
        location_products :=
          {| rows := [ {| LocationProduct.id := 1; LocationProduct.product_id := 2;
                          LocationProduct.location_id := 1;
                          LocationProduct.price := 7 |} ];
             seq := 1 |} |}, 1).
Proof. by vm_compute. Qed.

(** A second run over the same batch: under [Serial] the link row is
    stored again under the next key, under [Rowid] under the same key. *)
Example second_run_keys :
  map LocationProduct.id
    (rows (location_products
       (update_db Serial (update_db Serial empty_db aspirin_feed).1 aspirin_feed).1))
  = [2] /\
  map LocationProduct.id
    (rows (location_products
       (update_db Rowid (update_db Rowid empty_db aspirin_feed).1 aspirin_feed).1))
  = [1].
Proof. split; by vm_compute. Qed.

(** ** Tables and key allocation *)

Section TableFacts.

Context {A R : Type} (pol : KeyPolicy) (key : R -> Z) (mk : A -> Z -> R).

Lemma max_key_ge (ids : list Z) (i : Z) : i ∈ ids -> i <= max_key ids.
Proof.
  induction 1 as [i ids | i j ids _ IH]; simpl; lia.
Qed.

Lemma max_key_nonneg (ids : list Z) : 0 <= max_key ids.
Proof. induction ids; simpl; lia. Qed.

Lemma bulk_save_nil (t : Table R) : bulk_save_objects pol key mk [] t = t.
Proof. reflexivity. Qed.

Lemma bulk_save_snoc (objs : list A) (o : A) (t : Table R) :
  bulk_save_objects pol key mk (objs ++ [o]) t
  = insert pol key (mk o) (bulk_save_objects pol key mk objs t).
Proof. unfold bulk_save_objects. by rewrite fold_left_app. Qed.

(** The rows already stored stay in place; one row per pending object
    is appended, in order. *)
Lemma bulk_save_rows (objs : list A) (t : Table R) :
  exists added,
    rows (bulk_save_objects pol key mk objs t) = rows t ++ added /\
    Forall2 (fun o r => exists k, r = mk o k) objs added.
Proof.
  induction objs as [|o objs IH] using rev_ind.
  - exists []. split; [by rewrite app_nil_r | constructor].
  - destruct IH as (added & Hrows & Hall).
    exists (added ++ [mk o (next_key pol key (bulk_save_objects pol key mk objs t))]).
    rewrite bulk_save_snoc. simpl. rewrite Hrows, <- app_assoc. split; [done|].
    apply Forall2_app; [done|]. repeat constructor. eauto.
Qed.

Lemma bulk_save_seq_rowid (objs : list A) (t : Table R) :
  seq (bulk_save_objects Rowid key mk objs t) = seq t.
Proof.
  induction objs as [|o objs IH] using rev_ind; [done|].
  unfold bulk_save_objects in *. by rewrite fold_left_app.
Qed.

Hypothesis key_mk : forall o k, key (mk o k) = k.

Lemma next_key_fresh (t : Table R) :
  keys_ok pol key t ->
  0 < next_key pol key t /\ forall r, r ∈ rows t -> key r < next_key pol key t.
Proof.
  intros (_ & Hpos & Hseq). unfold next_key. destruct pol.
  - destruct Hseq as [Hs Hle]. split; [lia|]. intros r Hr.
    rewrite Forall_forall in Hle. specialize (Hle r Hr). lia.
  - pose proof (max_key_nonneg (map key (rows t))). split; [lia|]. intros r Hr.
    assert (key r <= max_key (map key (rows t))); [|lia].
    apply max_key_ge, list_elem_of_fmap. eauto.
Qed.

Lemma insert_keys_ok (o : A) (t : Table R) :
  keys_ok pol key t -> keys_ok pol key (insert pol key (mk o) t).
Proof.
  intros Hok. destruct (next_key_fresh t Hok) as [Hpos Hfresh].
  destruct Hok as (Hnd & Hall & Hseq). unfold keys_ok, insert. simpl.
  rewrite map_app. simpl. rewrite key_mk. split_and!.
  - apply NoDup_app. split_and!; [done| |apply NoDup_singleton].
    intros k Hk Hk'. apply list_elem_of_singleton in Hk'. subst k.
    apply list_elem_of_fmap in Hk as (r & Hr & Hin).
    specialize (Hfresh r Hin). lia.
  - apply Forall_app. split; [done|]. repeat constructor. by rewrite key_mk.
  - destruct pol; [|done]. destruct Hseq as [Hs Hle]. unfold next_key in *.
    split; [lia|]. apply Forall_app. split.
    + eapply Forall_impl; [exact Hle|]. simpl. intros; lia.
    + repeat constructor. rewrite key_mk. lia.
Qed.

Lemma bulk_save_keys_ok (objs : list A) (t : Table R) :
  keys_ok pol key t -> keys_ok pol key (bulk_save_objects pol key mk objs t).
Proof.
  intros Hok. induction objs as [|o objs IH] using rev_ind; [done|].
  rewrite bulk_save_snoc. by apply insert_keys_ok.
Qed.

End TableFacts.

(** Two rows of a table with distinct keys that share a key are one row. *)
Lemma NoDup_key_inj' {R K} (key : R -> K) (l : list R) (r1 r2 : R) :
  NoDup (map key l) -> r1 ∈ l -> r2 ∈ l -> key r1 = key r2 -> r1 = r2.
Proof.
  induction l as [|r l IH]; simpl; intros Hnd H1 H2 Heq.
  - by apply elem_of_nil in H1.
  - apply NoDup_cons in Hnd as [Hnotin Hnd].
    apply elem_of_cons in H1 as [->|H1]; apply elem_of_cons in H2 as [->|H2].
    + done.
    + exfalso. apply Hnotin. rewrite Heq. apply list_elem_of_fmap. eauto.
    + exfalso. apply Hnotin. rewrite <- Heq. apply list_elem_of_fmap. eauto.
    + by apply IH.
Qed.

(** ** The dictionaries built from a table *)

Section DictFacts.

Context {R : Type} (k : R -> string) (v : R -> Z).

Let build (l : list R) (m : gmap string Z) : gmap string Z :=
  fold_left (fun m r => <[k r := v r]> m) l m.

Lemma dict_lookup (l : list R) (m : gmap string Z) (n : string) (i : Z) :
  build l m !! n = Some i ->
  (exists r, r ∈ l /\ k r = n /\ v r = i) \/ m !! n = Some i.
Proof.
  revert m. induction l as [|r l IH]; simpl; intros m H; [by right|].
  apply IH in H as [(r' & Hin & Hk & Hv)|H].
  - left. exists r'. split; [by right|done].
  - destruct (decide (k r = n)) as [Heq|Hne].
    + rewrite Heq, lookup_insert_eq in H. left. exists r.
      split; [by left|]. split; congruence.
    + rewrite lookup_insert_ne in H by done. by right.
Qed.

Lemma dict_lookup_is_Some (l : list R) (m : gmap string Z) (n : string) :
  n ∈ map k l \/ is_Some (m !! n) -> is_Some (build l m !! n).
Proof.
  revert m. induction l as [|r l IH]; simpl; intros m H.
  - destruct H as [H|H]; [by apply elem_of_nil in H|done].
  - apply IH. destruct H as [H|H].
    + apply elem_of_cons in H as [->|H]; [|by left].
      right. rewrite lookup_insert_eq. eauto.
    + right. destruct (decide (k r = n)) as [->|Hne].
      * rewrite lookup_insert_eq. eauto.
      * by rewrite lookup_insert_ne.
Qed.

Lemma dict_lookup_None (l : list R) (n : string) :
  build l ∅ !! n = None <-> n ∉ map k l.
Proof.
  split.
  - intros H Hin.
    destruct (dict_lookup_is_Some l ∅ n (or_introl Hin)) as [i Hi]. congruence.
  - intros Hnotin. destruct (build l ∅ !! n) as [i|] eqn:E; [|done].
    apply dict_lookup in E as [(r & Hin & Hk & _)|E].
    + exfalso. apply Hnotin. rewrite <- Hk. apply list_elem_of_fmap. eauto.
    + by rewrite lookup_empty in E.
Qed.

End DictFacts.

Lemma product_ids_lookup (ps : list Product.t) (n : string) (i : Z) :
  product_ids ps !! n = Some i ->
  exists p, p ∈ ps /\ Product.name p = n /\ Product.id p = i.
Proof.
  intros H. apply dict_lookup in H as [H|H]; [done|by rewrite lookup_empty in H].
Qed.

Lemma location_ids_lookup (ls : list Location.t) (a : string) (i : Z) :
  location_ids ls !! a = Some i ->
  exists l, l ∈ ls /\ Location.address l = a /\ Location.id l = i.
Proof.
  intros H. apply dict_lookup in H as [H|H]; [done|by rewrite lookup_empty in H].
Qed.

Lemma product_ids_None (ps : list Product.t) (n : string) :
  product_ids ps !! n = None <-> n ∉ map Product.name ps.
Proof. apply dict_lookup_None. Qed.

Lemma location_ids_None (ls : list Location.t) (a : string) :
  location_ids ls !! a = None <-> a ∉ map Location.address ls.
Proof. apply dict_lookup_None. Qed.

(** ** Pass 1 *)

Lemma pass1_step_products ep el s item :
  product_queue (pass1_step ep el s item)
  = enqueue ep (product_queue s) (name (product item)).
Proof.
  unfold pass1_step, enqueue, product_queue. simpl.
  repeat case_match; done.
Qed.

Lemma pass1_step_locations ep el s item :
  location_queue (pass1_step ep el s item)
  = enqueue el (location_queue s) (address (location item)).
Proof.
  unfold pass1_step, enqueue, location_queue. simpl.
  repeat case_match; simpl in *; congruence.
Qed.

Lemma pass1_products ep el items s :
  product_queue (fold_left (pass1_step ep el) items s)
  = fold_left (enqueue ep) (map (fun it => name (product it)) items) (product_queue s).
Proof.
  revert s. induction items as [|it items IH]; intros s; simpl; [done|].
  by rewrite IH, pass1_step_products.
Qed.

Lemma pass1_locations ep el items s :
  location_queue (fold_left (pass1_step ep el) items s)
  = fold_left (enqueue el) (map (fun it => address (location it)) items) (location_queue s).
Proof.
  revert s. induction items as [|it items IH]; intros s; simpl; [done|].
  by rewrite IH, pass1_step_locations.
Qed.

Section QueueFacts.

Variable existing : gmap string Z.

Lemma enqueue_ok q n :
  queue_ok existing q -> queue_ok existing (enqueue existing q n).
Proof.
  intros (Hset & Hnd & Hnew). unfold enqueue.
  destruct (bool_decide (existing !! n = None)) eqn:E1; simpl; [|done].
  destruct (bool_decide (n ∉ q.1)) eqn:E2; simpl; [|done].
  apply bool_decide_eq_true in E1, E2. split_and!; simpl.
  - intros m. rewrite elem_of_union, elem_of_singleton, elem_of_app,
      list_elem_of_singleton, Hset. tauto.
  - apply NoDup_app. split_and!; [done| |apply NoDup_singleton].
    intros m Hm Hm'. apply list_elem_of_singleton in Hm'. subst m.
    apply E2, Hset, Hm.
  - intros m Hm. apply elem_of_app in Hm as [Hm|Hm]; [by apply Hnew|].
    apply list_elem_of_singleton in Hm. by subst m.
Qed.

Lemma enqueue_all_ok ns q :
  queue_ok existing q -> queue_ok existing (fold_left (enqueue existing) ns q).
Proof.
  revert q. induction ns as [|n ns IH]; intros q Hq; simpl; [done|].
  by apply IH, enqueue_ok.
Qed.

Lemma enqueue_mono n q m : m ∈ q.2 -> m ∈ (enqueue existing q n).2.
Proof.
  unfold enqueue. case_match; simpl; [|done]. intros. apply elem_of_app. by left.
Qed.

Lemma enqueue_all_mono ns q m :
  m ∈ q.2 -> m ∈ (fold_left (enqueue existing) ns q).2.
Proof.
  revert q. induction ns as [|n ns IH]; intros q Hq; simpl; [done|].
  by apply IH, enqueue_mono.
Qed.

(** Every key met is stored already or ends up in the queue. *)
Lemma enqueue_all_covers ns q n :
  queue_ok existing q -> n ∈ ns ->
  is_Some (existing !! n) \/ n ∈ (fold_left (enqueue existing) ns q).2.
Proof.
  revert q. induction ns as [|m ns IH]; intros q Hq Hin; simpl.
  - by apply elem_of_nil in Hin.
  - apply elem_of_cons in Hin as [->|Hin]; [|by apply IH; [apply enqueue_ok|]].
    destruct (existing !! m) as [i|] eqn:E; [left; eauto|right].
    apply enqueue_all_mono. unfold enqueue. rewrite E.
    rewrite bool_decide_eq_true_2 by done. simpl.
    destruct (bool_decide (m ∉ q.1)) eqn:E2; simpl.
    + apply elem_of_app. right. by apply list_elem_of_singleton.
    + apply bool_decide_eq_false in E2. apply Hq. by apply dec_stable.
Qed.

(** Nothing is queued when every key met is stored. *)
Lemma enqueue_all_stored ns q :
  (forall n, n ∈ ns -> is_Some (existing !! n)) ->
  fold_left (enqueue existing) ns q = q.
Proof.
  revert q. induction ns as [|m ns IH]; intros q Hall; simpl; [done|].
  assert (enqueue existing q m = q) as ->.
  { unfold enqueue. destruct (Hall m) as [i Hi]; [by left|].
    rewrite Hi. by rewrite bool_decide_eq_false_2. }
  apply IH. intros n Hn. apply Hall. by right.
Qed.

End QueueFacts.

Lemma queue_ok_init existing : queue_ok existing (∅, []).
Proof.
  split_and!; simpl; [|constructor|].
  - intros n. split; intros H; [by apply elem_of_empty in H|by apply elem_of_nil in H].
  - intros n H. by apply elem_of_nil in H.
Qed.

(** ** Pass 2 *)

Section Pass2Facts.

Variables ep el : gmap string Z.

Let step := pass2_step ep el.
Let link := link_of ep el.

Lemma links_ok_init : links_ok pass2_init.
Proof.
  split_and!; simpl; [|constructor|done].
  intros k. split; intros H; [by apply elem_of_empty in H|by apply elem_of_nil in H].
Qed.

Lemma pass2_step_skip s item :
  link item = None -> step s item = s.
Proof. unfold step, pass2_step, link. by intros ->. Qed.

Lemma pass2_step_seen s item l :
  link item = Some l -> l.1 ∈ seen_links s -> step s item = s.
Proof.
  unfold step, pass2_step, link. intros -> H. by rewrite bool_decide_eq_true_2.
Qed.

Lemma pass2_step_new s item l :
  link item = Some l -> l.1 ∉ seen_links s ->
  step s item = {| seen_links := {[l.1]} ∪ seen_links s;
                   pharm_prod_prices := pharm_prod_prices s ++ [l];
                   counter := counter s + 1 |}.
Proof.
  unfold step, pass2_step, link. intros -> H. by rewrite bool_decide_eq_false_2.
Qed.

(** The three ways through one iteration of the second loop. *)
Lemma pass2_step_cases s item :
  (step s item = s /\
     (link item = None \/ exists l, link item = Some l /\ l.1 ∈ seen_links s)) \/
  (exists l, link item = Some l /\ (l.1 ∉ seen_links s) /\
     step s item = {| seen_links := {[l.1]} ∪ seen_links s;
                      pharm_prod_prices := pharm_prod_prices s ++ [l];
                      counter := counter s + 1 |}).
Proof.
  destruct (link item) as [l|] eqn:E.
  - destruct (decide (l.1 ∈ seen_links s)) as [Hin|Hnin].
    + left. split; [by eapply pass2_step_seen|right; eauto].
    + right. exists l. split_and!; [done..|by apply pass2_step_new].
  - left. split; [by apply pass2_step_skip|by left].
Qed.

Lemma pass2_step_ok s item : links_ok s -> links_ok (step s item).
Proof.
  intros Hok. destruct (pass2_step_cases s item) as [[-> _]|(l & _ & Hnew & ->)];
    [done|].
  destruct Hok as (Hset & Hnd & Hcnt). split_and!; simpl.
  - intros k. rewrite map_app, elem_of_union, elem_of_singleton, elem_of_app,
      Hset. simpl. rewrite list_elem_of_singleton. tauto.
  - rewrite map_app. apply NoDup_app. split_and!; [done| |apply NoDup_singleton].
    simpl. intros k Hk Hk'. apply list_elem_of_singleton in Hk'. subst k.
    by apply Hnew, Hset.
  - rewrite length_app. simpl. lia.
Qed.

Lemma pass2_ok items s : links_ok s -> links_ok (fold_left step items s).
Proof.
  revert s. induction items as [|it items IH]; intros s Hs; simpl; [done|].
  by apply IH, pass2_step_ok.
Qed.

(** The list only grows, and every link added comes from the first
    record of the scan filed under its key. *)
Lemma pass2_added items s :
  exists added,
    pharm_prod_prices (fold_left step items s) = pharm_prod_prices s ++ added /\
    forall l, l ∈ added ->
      (l.1 ∉ seen_links s) /\
      exists pre c post,
        items = pre ++ c :: post /\ link c = Some l /\
        forall c', c' ∈ pre -> ¬ has_key ep el c' l.1.
Proof.
  revert s. induction items as [|it items IH]; intros s; simpl.
  - exists []. split; [by rewrite app_nil_r|]. intros l H. by apply elem_of_nil in H.
  - destruct (IH (step s it)) as (added & Hlist & Hsrc).
    destruct (pass2_step_cases s it) as [[Heq Hwhy]|(l0 & Hl0 & Hnew & Heq)].
    + exists added. rewrite Hlist, Heq. split; [done|].
      intros l Hl. destruct (Hsrc l Hl) as (Hnotin & pre & c & post & -> & Hc & Hpre).
      rewrite Heq in Hnotin. split; [done|].
      exists (it :: pre), c, post. split_and!; [done..|].
      intros c' Hc'. apply elem_of_cons in Hc' as [->|Hc']; [|by apply Hpre].
      intros (l' & Hl' & Hk). unfold link in *.
      destruct Hwhy as [Hnone|(l'' & Hsome & Hseen)]; [congruence|].
      assert (l'' = l') by congruence. subst l''. congruence.
    + exists (l0 :: added). rewrite Hlist, Heq. simpl. rewrite <- app_assoc.
      split; [done|]. intros l Hl. apply elem_of_cons in Hl as [->|Hl].
      * split; [done|]. exists [], it, items. split_and!; [done..|].
        intros c' Hc'. by apply elem_of_nil in Hc'.
      * destruct (Hsrc l Hl) as (Hnotin & pre & c & post & -> & Hc & Hpre).
        rewrite Heq in Hnotin. simpl in Hnotin.
        rewrite elem_of_union, elem_of_singleton in Hnotin.
        split; [tauto|]. exists (it :: pre), c, post. split_and!; [done..|].
        intros c' Hc'. apply elem_of_cons in Hc' as [->|Hc']; [|by apply Hpre].
        intros (l' & Hl' & Hk). unfold link in *.
        assert (l' = l0) by congruence. subst l'. apply Hnotin. by left.
Qed.

(** A key is in the set only if it was there or a record met was filed
    under it. *)
Lemma pass2_seen_source items s k :
  k ∈ seen_links (fold_left step items s) ->
  k ∈ seen_links s \/ exists c, c ∈ items /\ has_key ep el c k.
Proof.
  revert s. induction items as [|it items IH]; intros s; simpl; [by left|].
  intros H. apply IH in H as [H|(c & Hc & Hk)].
  - destruct (pass2_step_cases s it) as [[Heq _]|(l0 & Hl0 & Hnew & Heq)];
      rewrite Heq in H; [by left|].
    simpl in H. apply elem_of_union in H as [H|H]; [|by left].
    apply elem_of_singleton in H. subst k. right. exists it.
    split; [by left|]. by exists l0.
  - right. exists c. split; [by right|done].
Qed.

Lemma pass2_seen_mono items s k :
  k ∈ seen_links s -> k ∈ seen_links (fold_left step items s).
Proof.
  revert s. induction items as [|it items IH]; intros s H; simpl; [done|].
  apply IH. destruct (pass2_step_cases s it) as [[-> _]|(l0 & _ & _ & ->)];
    [done|]. simpl. apply elem_of_union. by right.
Qed.

(** Every record that is filed leaves its key in the set. *)
Lemma pass2_seen_covers items s c k :
  c ∈ items -> has_key ep el c k -> k ∈ seen_links (fold_left step items s).
Proof.
  revert s. induction items as [|it items IH]; intros s Hin Hk; simpl.
  - by apply elem_of_nil in Hin.
  - apply elem_of_cons in Hin as [->|Hin]; [|by apply IH].
    apply pass2_seen_mono. destruct Hk as (l & Hl & <-).
    destruct (pass2_step_cases s it) as [[-> Hwhy]|(l0 & Hl0 & _ & ->)].
    + unfold link in *. destruct Hwhy as [Hnone|(l' & Hl' & Hseen)]; [congruence|].
      by assert (l' = l) as <- by congruence.
    + unfold link in *. assert (l0 = l) as -> by congruence.
      simpl. apply elem_of_union. left. by apply elem_of_singleton.
Qed.

Lemma pass2_split pre c post :
  pass2 ep el (pre ++ c :: post)
  = fold_left step post (step (fold_left step pre pass2_init) c).
Proof. unfold pass2. by rewrite fold_left_app. Qed.

(** First occurrence wins: the first record filed under a key puts its
    own link in the list. *)
Lemma pass2_first pre c post l :
  link c = Some l -> (forall c', c' ∈ pre -> ¬ has_key ep el c' l.1) ->
  l ∈ pharm_prod_prices (pass2 ep el (pre ++ c :: post)).
Proof.
  intros Hl Hpre. rewrite pass2_split.
  set (s := fold_left step pre pass2_init).
  assert (l.1 ∉ seen_links s) as Hnew.
  { intros H. apply pass2_seen_source in H as [H|(c' & Hc' & Hk)].
    - by apply elem_of_empty in H.
    - by apply (Hpre c'). }
  destruct (pass2_added post (step s c)) as (added & -> & _).
  apply elem_of_app. left.
  rewrite (pass2_step_new s c l Hl Hnew). simpl.
  apply elem_of_app. right. by apply list_elem_of_singleton.
Qed.

(** A record that is not filed leaves no trace in the second loop. *)
Lemma pass2_drop pre c post :
  link c = None -> pass2 ep el (pre ++ c :: post) = pass2 ep el (pre ++ post).
Proof.
  intros H. rewrite pass2_split, pass2_step_skip by done.
  unfold pass2. by rewrite fold_left_app.
Qed.

End Pass2Facts.

(** ** The run as a whole *)

Section RunFacts.

Variable pol : KeyPolicy.
Variable db : Session.
Variable feed : list LocationProductSchema.

Let ep := product_ids (rows (products db)).
Let el := location_ids (rows (locations db)).
Let db' := (update_db pol db feed).1.

Lemma saved_names (ns : list string) (added : list Product.t) :
  Forall2 (fun o r => exists k, r = new_product o k) ns added ->
  map Product.name added = ns.
Proof.
  induction 1 as [|o r ns added (k & ->) _ IH]; simpl; [done|]. by rewrite IH.
Qed.

Lemma saved_addresses (ns : list string) (added : list Location.t) :
  Forall2 (fun o r => exists k, r = new_location o k) ns added ->
  map Location.address added = ns.
Proof.
  induction 1 as [|o r ns added (k & ->) _ IH]; simpl; [done|]. by rewrite IH.
Qed.

Lemma saved_links (ls : list (Z * Z * Z)) (added : list LocationProduct.t) :
  Forall2 (fun o r => exists k, r = new_link o k) ls added ->
  map link_data added = ls.
Proof.
  induction 1 as [|o r ls added (k & ->) _ IH]; simpl; [done|].
  rewrite IH. by destruct o as [[??]?].
Qed.

Lemma new_products_queue :
  new_products (pass1 ep el feed)
  = (fold_left (enqueue ep) (map (fun it => name (product it)) feed) (∅, [])).2.
Proof.
  change (new_products (pass1 ep el feed))
    with (product_queue (fold_left (pass1_step ep el) feed pass1_init)).2.
  by rewrite pass1_products.
Qed.

Lemma new_locations_queue :
  new_locations (pass1 ep el feed)
  = (fold_left (enqueue el) (map (fun it => address (location it)) feed) (∅, [])).2.
Proof.
  change (new_locations (pass1 ep el feed))
    with (location_queue (fold_left (pass1_step ep el) feed pass1_init)).2.
  by rewrite pass1_locations.
Qed.

(** The product table after the run: the rows stored before, then one
    row per queued name. *)
Lemma products_after :
  exists added,
    rows (products db') = rows (products db) ++ added /\
    map Product.name added = new_products (pass1 ep el feed).
Proof.
  destruct (bulk_save_rows pol Product.id new_product
              (new_products (pass1 ep el feed)) (products db))
    as (added & Hrows & Hall).
  exists added. split; [exact Hrows|by apply saved_names].
Qed.

Lemma locations_after :
  exists added,
    rows (locations db') = rows (locations db) ++ added /\
    map Location.address added = new_locations (pass1 ep el feed).
Proof.
  destruct (bulk_save_rows pol Location.id new_location
              (new_locations (pass1 ep el feed)) (locations db))
    as (added & Hrows & Hall).
  exists added. split; [exact Hrows|by apply saved_addresses].
Qed.

(** Every name of the batch is the name of a product row after the
    run, as it stands in the record. *)
Lemma names_stored item :
  item ∈ feed -> name (product item) ∈ map Product.name (rows (products db')).
Proof.
  intros Hin. destruct products_after as (added & -> & Hnames).
  rewrite map_app, Hnames, new_products_queue. apply elem_of_app.
  destruct (enqueue_all_covers ep (map (fun it => name (product it)) feed)
              (∅, []) (name (product item)) (queue_ok_init ep)) as [Hs|Hq].
  - apply list_elem_of_fmap. eauto.
  - left. destruct (decide (name (product item) ∈ map Product.name (rows (products db))))
      as [H|H]; [done|].
    apply product_ids_None in H. fold ep in H. rewrite H in Hs. by destruct Hs.
  - by right.
Qed.

Lemma addresses_stored item :
  item ∈ feed ->
  address (location item) ∈ map Location.address (rows (locations db')).
Proof.
  intros Hin. destruct locations_after as (added & -> & Hnames).
  rewrite map_app, Hnames, new_locations_queue. apply elem_of_app.
  destruct (enqueue_all_covers el (map (fun it => address (location it)) feed)
              (∅, []) (address (location item)) (queue_ok_init el)) as [Hs|Hq].
  - apply list_elem_of_fmap. eauto.
  - left. destruct (decide (address (location item)
                            ∈ map Location.address (rows (locations db))))
      as [H|H]; [done|].
    apply location_ids_None in H. fold el in H. rewrite H in Hs. by destruct Hs.
  - by right.
Qed.

(** The link table after the run holds the list built by the second
    loop, row for row, and the value returned is the loop's counter. *)
Lemma links_after :
  map link_data (rows (location_products db'))
  = pharm_prod_prices
      (pass2 (product_ids (rows (products db')))
             (location_ids (rows (locations db'))) feed).
Proof.
  unfold db', update_db. simpl.
  match goal with
  | |- context [bulk_save_objects pol LocationProduct.id new_link ?ls ?t] =>
      destruct (bulk_save_rows pol LocationProduct.id new_link ls t)
        as (added & -> & Hall)
  end.
  simpl. by apply saved_links.
Qed.

Lemma counter_after :
  (update_db pol db feed).2
  = counter (pass2 (product_ids (rows (products db')))
                   (location_ids (rows (locations db'))) feed).
Proof. reflexivity. Qed.

Lemma count_is_length :
  (update_db pol db feed).2
  = Z.of_nat (length (rows (location_products db'))).
Proof.
  rewrite counter_after.
  pose proof (pass2_ok (product_ids (rows (products db')))
                (location_ids (rows (locations db'))) feed pass2_init
                (links_ok_init)) as (_ & _ & Hcnt).
  rewrite <- (length_map link_data), links_after. exact Hcnt.
Qed.

End RunFacts.

(** ** Properties of the reconciliation run *)

Lemma links_nodup pol db feed :
  NoDup (map link_key (rows (location_products (update_db pol db feed).1))).
Proof.
  set (db' := (update_db pol db feed).1).
  pose proof (pass2_ok (product_ids (rows (products db')))
                (location_ids (rows (locations db'))) feed pass2_init
                (links_ok_init)) as (_ & Hnd & _).
  replace (map link_key (rows (location_products db')))
    with (map fst (map link_data (rows (location_products db')))).
  - unfold db'. rewrite links_after. exact Hnd.
  - rewrite map_map. done.
Qed.

(** Every row of the link table after the run stems from the first record
    of the batch that pass 2 files under the row's key. *)
Lemma links_source pol db feed row :
  row ∈ rows (location_products (update_db pol db feed).1) ->
  exists pre c post,
    feed = pre ++ c :: post /\
    resolved pol db feed c = Some (link_data row) /\
    forall c', c' ∈ pre -> ¬ filed_under pol db feed c' (link_key row).
Proof.
  intros Hrow.
  assert (link_data row ∈ map link_data
            (rows (location_products (update_db pol db feed).1))) as Hl.
  { apply list_elem_of_fmap. eauto. }
  rewrite links_after in Hl. unfold pass2 in Hl.
  match type of Hl with
  | _ ∈ pharm_prod_prices (fold_left (pass2_step ?ep ?el) _ _) =>
      destruct (pass2_added ep el feed pass2_init) as (added & Heq & Hsrc)
  end.
  rewrite Heq in Hl. simpl in Hl.
  destruct (Hsrc _ Hl) as (_ & pre & c & post & Hfeed & Hc & Hpre).
  exists pre, c, post. split_and!; [done..|].
  intros c' Hc' Hk. by apply (Hpre c' Hc').
Qed.

(** The first record filed under a key has its link in the table. *)
Lemma links_first pol db pre c post l :
  resolved pol db (pre ++ c :: post) c = Some l ->
  (forall c', c' ∈ pre -> ¬ filed_under pol db (pre ++ c :: post) c' l.1) ->
  exists row,
    row ∈ rows (location_products (update_db pol db (pre ++ c :: post)).1) /\
    link_data row = l.
Proof.
  intros Hc Hpre.
  assert (l ∈ map link_data
            (rows (location_products (update_db pol db (pre ++ c :: post)).1))) as Hl.
  { rewrite links_after. apply pass2_first; [exact Hc|].
    intros c' Hc' Hk. by apply (Hpre c' Hc'). }
  apply list_elem_of_fmap in Hl as (row & -> & Hrow). eauto.
Qed.

(** Among rows with pairwise distinct keys, the rows with the key of a
    given row are that row alone. *)
Lemma filter_key_unique {R K} `{EqDecision K} (key : R -> K) (l : list R) (r : R) :
  NoDup (map key l) -> r ∈ l -> filter (fun x => key x = key r) l = [r].
Proof.
  induction l as [|x l IH]; simpl; intros Hnd Hin.
  - by apply elem_of_nil in Hin.
  - apply NoDup_cons in Hnd as [Hx Hnd].
    apply elem_of_cons in Hin as [->|Hin].
    + rewrite filter_cons_True by done. f_equal.
      destruct (filter _ l) as [|y ys] eqn:E; [done|].
      assert (y ∈ y :: ys) as Hy by (by left).
      rewrite <- E in Hy. apply list_elem_of_filter in Hy as [Heq Hy].
      exfalso. apply Hx. rewrite <- Heq. apply list_elem_of_fmap. eauto.
    + rewrite filter_cons_False; [by apply IH|].
      intros Heq. apply Hx. rewrite Heq. apply list_elem_of_fmap. eauto.
Qed.

(** What it takes for pass 2 to file a record: the price converts, both
    stripped strings are keys of their dictionary, and neither key found
    is zero. *)
Lemma link_of_Some ep el item l :
  link_of ep el item = Some l <->
  int (price item) = Some l.2 /\
  ep !! Py.strip (name (product item)) = Some l.1.1 /\
  el !! Py.strip (address (location item)) = Some l.1.2 /\
  l.1.1 <> 0 /\ l.1.2 <> 0.
Proof.
  unfold link_of. destruct l as [[p a] v]. simpl.
  destruct (int (price item)) as [v'|]; [|intuition congruence].
  destruct (ep !! _) as [p'|]; [|intuition congruence].
  destruct (el !! _) as [a'|]; [|intuition congruence].
  destruct (Z.eqb_spec p' 0), (Z.eqb_spec a' 0); simpl;
    (split; [intros [= <- <- <-]; done | intros (? & ? & ? & ? & ?); congruence]).
Qed.

(** C1. Full replace: after a run the link table holds the links derived
    from the batch and nothing else. Every row stems from a record of the
    batch, every record that pass 2 files has its key in the table, the
    table does not depend on the rows it held before the run (they are
    all deleted), and a pair under which no record of the batch is filed
    has no row. *)
Theorem full_replace (pol : KeyPolicy) (db : Session)
    (feed : list LocationProductSchema) :
  let after := rows (location_products (update_db pol db feed).1) in
  (forall row, row ∈ after ->
     exists item, item ∈ feed /\ resolved pol db feed item = Some (link_data row)) /\
  (forall item l, item ∈ feed -> resolved pol db feed item = Some l ->
     exists row, row ∈ after /\ link_key row = l.1) /\
  (forall old,
     location_products (update_db pol (with_link_rows db old) feed).1
     = location_products (update_db pol db feed).1) /\
  (forall k, (forall item, item ∈ feed -> ¬ filed_under pol db feed item k) ->
     k ∉ map link_key after).
Proof.
  intros after. split_and!.
  - intros row Hrow.
    destruct (links_source pol db feed row Hrow) as (pre & c & post & -> & Hc & _).
    exists c. split; [|done]. apply elem_of_app. right. by left.
  - intros item l Hin Hl.
    assert (l.1 ∈ map fst (map link_data after)) as Hk.
    { unfold after. rewrite links_after.
      eapply (pass2_ok _ _ feed pass2_init (links_ok_init)).
      eapply pass2_seen_covers; [exact Hin|]. by exists l. }
    rewrite map_map in Hk. apply list_elem_of_fmap in Hk as (row & Hk & Hrow).
    exists row. split; [done|]. by rewrite Hk.
  - reflexivity.
  - intros k Hnone Hk. apply list_elem_of_fmap in Hk as (row & -> & Hrow).
    destruct (links_source pol db feed row Hrow) as (pre & c & post & -> & Hc & _).
    apply (Hnone c); [apply elem_of_app; right; by left|].
    by exists (link_data row).
Qed.

(** C2. First occurrence wins: when the first record of the batch filed
    under a pair is [c], the link table after the run has exactly one row
    for that pair, and the row carries the price of [c], whatever records
    for the same pair follow. On the empty store the feed with two
    quotes 10 and 20 for Aspirin at Main St leaves one product, one
    location and one link with price 10, and the run returns 1. *)
Theorem first_occurrence_wins :
  (forall pol db pre c post l,
     let feed := pre ++ c :: post in
     resolved pol db feed c = Some l ->
     (forall c', c' ∈ pre -> ¬ filed_under pol db feed c' l.1) ->
     map link_data
       (filter (fun row => link_key row = l.1)
          (rows (location_products (update_db pol db feed).1))) = [l]) /\
  (forall pol,
     let r := update_db pol empty_db aspirin_feed in
     rows (products r.1) = [ {| Product.id := 1; Product.name := "Aspirin" |} ] /\
     rows (locations r.1)
     = [ {| Location.id := 1; Location.address := "Main St";
            Location.phone := None |} ] /\
     map link_data (rows (location_products r.1)) = [ (1, 1, 10) ] /\
     r.2 = 1).
Proof.
  split.
  - intros pol db pre c post l feed Hc Hpre.
    destruct (links_first pol db pre c post l Hc Hpre) as (row & Hrow & <-).
    change (link_data row).1 with (link_key row).
    rewrite (filter_key_unique link_key _ row); [done| |done].
    apply links_nodup.
  - intros []; vm_compute; done.
Qed.

(** C3 (amended). The entry that survives for a pair is the link of the
    first record of the batch filed under it: the link table holds one
    row for the pair, with the keys and the price of that record. *)
Theorem first_match_stored (pol : KeyPolicy) (db : Session)
    (feed pre post : list LocationProductSchema) (c : LocationProductSchema)
    (l : Z * Z * Z) :
  feed = pre ++ c :: post ->
  resolved pol db feed c = Some l ->
  (forall c', c' ∈ pre -> ¬ filed_under pol db feed c' l.1) ->
  sole_link pol db feed l.
Proof.
  intros -> Hc Hpre.
  destruct (links_first pol db pre c post l Hc Hpre) as (row & Hrow & <-).
  exists row. split_and!; [done..|].
  intros row' Hrow' Hk.
  eapply (NoDup_key_inj' link_key); [apply links_nodup|done..].
Qed.

(** Closes a goal [¬ filed_under ..] on a concrete run by evaluating the
    link of the record. *)
Ltac not_filed :=
  let l := fresh "l" in
  let Hl := fresh "Hl" in
  let Hk := fresh "Hk" in
  intros (l & Hl & Hk); vm_compute in Hl;
  first [ discriminate Hl
        | injection Hl as <-; vm_compute in Hk; discriminate Hk ].

(** A run over [two_feed] stores a link for Ibuprofen at Main St; the
    next run, over a feed without that pair, leaves no row for it. *)
Lemma full_replace_witness :
  (2, 1) ∈ map link_key
    (rows (location_products (update_db Serial empty_db two_feed).1)) /\
  (2, 1) ∉ map link_key
    (rows (location_products
       (update_db Serial (update_db Serial empty_db two_feed).1 one_feed).1)).
Proof.
  split.
  - vm_compute. repeat constructor.
  - apply (proj2 (proj2 (proj2
      (full_replace Serial (update_db Serial empty_db two_feed).1 one_feed)))).
    intros item Hin. apply list_elem_of_singleton in Hin. subst item. not_filed.
Defined.

Lemma first_occurrence_wins_witness :
  resolved Serial empty_db three_feed (rec "Aspirin" "Main St" (PStr "10"))
  = Some (2, 1, 10) /\
  map link_data
    (filter (fun row => link_key row = (2, 1))
       (rows (location_products (update_db Serial empty_db three_feed).1)))
  = [ (2, 1, 10) ].
Proof.
  split; [by vm_compute|].
  apply (proj1 first_occurrence_wins Serial empty_db
           [rec "Ibuprofen" "Main St" (PStr "7")]
           (rec "Aspirin" "Main St" (PStr "10"))
           [rec "Aspirin" "Main St" (PStr "20")] (2, 1, 10)).
  - by vm_compute.
  - intros c' Hin. apply list_elem_of_singleton in Hin. subst c'. not_filed.
Defined.

(** On the two quotes for Aspirin at Main St the last record is filed
    with price 20 and no record follows it, yet the one row stored
    carries 10. *)
Lemma last_match_refuted : ¬ last_match_claim Rowid empty_db aspirin_feed.
Proof.
  intros H.
  destruct (H [rec "Aspirin" "Main St" (PStr "10")]
              (rec "Aspirin" "Main St" (PStr "20")) [] (1, 1, 20) eq_refl)
    as (row & Hrow & Hdata & _).
  - by vm_compute.
  - intros c' Hc'. by apply elem_of_nil in Hc'.
  - assert (rows (location_products (update_db Rowid empty_db aspirin_feed).1)
            = [ {| LocationProduct.id := 1; LocationProduct.product_id := 1;
                   LocationProduct.location_id := 1;
                   LocationProduct.price := 10 |} ]) as E by (by vm_compute).
    rewrite E in Hrow. apply list_elem_of_singleton in Hrow. subst row.
    discriminate Hdata.
Qed.

Lemma first_match_stored_witness :
  resolved Serial empty_db three_feed (rec "Aspirin" "Main St" (PStr "10"))
  = Some (2, 1, 10) /\
  sole_link Serial empty_db three_feed (2, 1, 10).
Proof.
  split; [by vm_compute|].
  apply (first_match_stored Serial empty_db three_feed
           [rec "Ibuprofen" "Main St" (PStr "7")]
           [rec "Aspirin" "Main St" (PStr "20")]
           (rec "Aspirin" "Main St" (PStr "10")) (2, 1, 10) eq_refl).
  - by vm_compute.
  - intros c' Hin. apply list_elem_of_singleton in Hin. subst c'. not_filed.
Defined.

(** C7. Natural keys stay unique: from a store in which no two products
    share a name and no two locations share an address, the run leads to
    a store with the same property, whether a name of the batch occurs
    several times in it or is stored already. *)
Theorem natural_keys_unique (pol : KeyPolicy) (db : Session)
    (feed : list LocationProductSchema) :
  NoDup (map Product.name (rows (products db))) ->
  NoDup (map Location.address (rows (locations db))) ->
  NoDup (map Product.name (rows (products (update_db pol db feed).1))) /\
  NoDup (map Location.address (rows (locations (update_db pol db feed).1))).
Proof.
  intros Hp Hl. split.
  - destruct (products_after pol db feed) as (added & -> & Hnames).
    rewrite map_app, Hnames, new_products_queue.
    pose proof (enqueue_all_ok (product_ids (rows (products db)))
                  (map (fun it => name (product it)) feed) (∅, [])
                  (queue_ok_init _)) as (_ & Hnd & Hnew).
    apply NoDup_app. split_and!; [done| |done].
    intros n Hn Hq. apply Hnew in Hq. by apply product_ids_None in Hq.
  - destruct (locations_after pol db feed) as (added & -> & Hnames).
    rewrite map_app, Hnames, new_locations_queue.
    pose proof (enqueue_all_ok (location_ids (rows (locations db)))
                  (map (fun it => address (location it)) feed) (∅, [])
                  (queue_ok_init _)) as (_ & Hnd & Hnew).
    apply NoDup_app. split_and!; [done| |done].
    intros n Hn Hq. apply Hnew in Hq. by apply location_ids_None in Hq.
Qed.

Lemma natural_keys_unique_witness :
  NoDup (map Product.name
           (rows (products
              (update_db Serial (update_db Serial empty_db two_feed).1 mixed_feed).1))) /\
  NoDup (map Location.address
           (rows (locations
              (update_db Serial (update_db Serial empty_db two_feed).1 mixed_feed).1))).
Proof.
  apply (natural_keys_unique Serial (update_db Serial empty_db two_feed).1 mixed_feed).
  - apply (bool_decide_unpack _). by vm_compute.
  - apply (bool_decide_unpack _). by vm_compute.
Defined.

(** C8. Referential integrity: after the run every link row names the
    key of a product row and the key of a location row of the store. *)
Theorem referential_integrity (pol : KeyPolicy) (db : Session)
    (feed : list LocationProductSchema) (row : LocationProduct.t) :
  row ∈ rows (location_products (update_db pol db feed).1) ->
  (exists p, p ∈ rows (products (update_db pol db feed).1) /\
             Product.id p = LocationProduct.product_id row) /\
  (exists l, l ∈ rows (locations (update_db pol db feed).1) /\
             Location.id l = LocationProduct.location_id row).
Proof.
  intros Hrow.
  destruct (links_source pol db feed row Hrow) as (pre & c & post & _ & Hc & _).
  apply link_of_Some in Hc as (_ & Hp & Hl & _). simpl in Hp, Hl. split.
  - apply product_ids_lookup in Hp as (p & Hin & _ & Hid). eauto.
  - apply location_ids_lookup in Hl as (l & Hin & _ & Hid). eauto.
Qed.

Lemma referential_integrity_witness :
  (exists p, p ∈ rows (products (update_db Serial empty_db three_feed).1) /\
             Product.id p = 2) /\
  (exists l, l ∈ rows (locations (update_db Serial empty_db three_feed).1) /\
             Location.id l = 1).
Proof.
  apply (referential_integrity Serial empty_db three_feed
           {| LocationProduct.id := 2; LocationProduct.product_id := 2;
              LocationProduct.location_id := 1; LocationProduct.price := 10 |}).
  vm_compute. repeat constructor.
Defined.

(** C10. [get_all_products] answers [None] exactly when the product table
    is empty, never [Some []], and otherwise the names of all product
    rows in table order. *)
Theorem get_all_products_absent_iff_empty (db : Session) :
  (get_all_products db = None <-> rows (products db) = []) /\
  get_all_products db <> Some [] /\
  (forall names, get_all_products db = Some names ->
     names = map Product.name (rows (products db)) /\ names <> []).
Proof.
  unfold get_all_products. destruct (rows (products db)) as [|p ps]; simpl.
  - split_and!; [done|done|]. intros names H. discriminate H.
  - split_and!; [split; intros H; discriminate H|intros H; discriminate H|].
    intros names [= <-]. split; [done|]. intros H. discriminate H.
Qed.

(** A negative quote, given as a number or as a string, is stored as it is. *)
Lemma negative_price_stored : ¬ nonneg_price_claim Serial empty_db negative_feed.
Proof.
  intros H.
  specialize (H {| LocationProduct.id := 1; LocationProduct.product_id := 1;
                   LocationProduct.location_id := 1; LocationProduct.price := -5 |}).
  simpl in H. apply Z.le_ngt in H; [|vm_compute; constructor].
  apply H. reflexivity.
Qed.

Lemma int_of_float_trunc (sgn : bool) (m : positive) (e : Z) :
  exists z, Py.int_of_float (S754_finite sgn m e) = Some z /\
    (if sgn then z <= 0 else 0 <= z) /\
    (0 <= e -> Z.abs z = Z.pos m * 2 ^ e) /\
    (e < 0 -> Z.abs z * 2 ^ (- e) <= Z.pos m < (Z.abs z + 1) * 2 ^ (- e)).
Proof.
  simpl. eexists. split; [reflexivity|].
  destruct (Z.leb_spec 0 e) as [He|He].
  - rewrite Z.shiftl_mul_pow2 by done.
    assert (0 < 2 ^ e) by (apply Z.pow_pos_nonneg; lia).
    assert (0 <= Z.pos m * 2 ^ e) by lia.
    destruct sgn; split_and!; try lia.
  - rewrite Z.shiftr_div_pow2 by lia.
    assert (0 < 2 ^ (- e)) as Hd by (apply Z.pow_pos_nonneg; lia).
    pose proof (Z.div_pos (Z.pos m) (2 ^ (- e)) ltac:(lia) Hd) as Hq.
    pose proof (Z.mul_div_le (Z.pos m) (2 ^ (- e)) Hd) as Hlo.
    pose proof (Z.mul_succ_div_gt (Z.pos m) (2 ^ (- e)) Hd) as Hhi.
    destruct sgn; split_and!; try lia;
      intros _; rewrite ?Z.abs_opp, Z.abs_eq by lia; lia.
Qed.

(** C6 (amended). After the run every link row carries the integer that
    [int] gives for the price of a record of the batch; no sign test is
    made, so the integer may be negative. A fractional price given as a
    float is not rejected: it converts to the integer obtained by dropping
    the fractional part, rounding toward zero. *)
Theorem stored_price_is_int_of_quote :
  (forall pol db feed row,
     row ∈ rows (location_products (update_db pol db feed).1) ->
     exists item, item ∈ feed /\
       int (price item) = Some (LocationProduct.price row)) /\
  (forall sgn m e, exists z,
     int (PFloat (S754_finite sgn m e)) = Some z /\
     (if sgn then z <= 0 else 0 <= z) /\
     (0 <= e -> Z.abs z = Z.pos m * 2 ^ e) /\
     (e < 0 -> Z.abs z * 2 ^ (- e) <= Z.pos m < (Z.abs z + 1) * 2 ^ (- e))).
Proof.
  split.
  - intros pol db feed row Hrow.
    destruct (links_source pol db feed row Hrow) as (pre & c & post & -> & Hc & _).
    exists c. split; [apply elem_of_app; right; by left|].
    by apply link_of_Some in Hc as (Hint & _).
  - intros sgn m e. apply int_of_float_trunc.
Qed.

Lemma stored_price_is_int_of_quote_witness :
  exists item, item ∈ float_feed /\ int (price item) = Some 10.
Proof.
  apply (proj1 stored_price_is_int_of_quote Serial empty_db float_feed
           {| LocationProduct.id := 1; LocationProduct.product_id := 1;
              LocationProduct.location_id := 1; LocationProduct.price := 10 |}).
  vm_compute. constructor.
Defined.

(** A fractional price given as a string does not convert. *)
Example fractional_string_rejected : int (PStr "10.5") = None.
Proof. reflexivity. Qed.

(** *** What [strip] removes *)

Lemma lstrip_all_space lp s :
  all_space lp = true -> Py.lstrip (String.append lp s) = Py.lstrip s.
Proof.
  induction lp as [|c lp IH]; simpl; [done|]. intros H.
  apply andb_true_iff in H as [Hc Hlp]. rewrite Hc. by apply IH.
Qed.

Lemma lstrip_no_space s : starts_with_space s = false -> Py.lstrip s = s.
Proof. destruct s as [|c s]; simpl; [done|]. by intros ->. Qed.

Lemma rstrip_all_space rp : all_space rp = true -> Py.rstrip rp = EmptyString.
Proof.
  induction rp as [|c rp IH]; simpl; [done|]. intros H.
  apply andb_true_iff in H as [Hc Hrp]. by rewrite (IH Hrp), Hc.
Qed.

Lemma rstrip_append_space s rp :
  all_space rp = true -> Py.rstrip (String.append s rp) = Py.rstrip s.
Proof.
  intros Hrp. induction s as [|c s IH].
  - by apply rstrip_all_space.
  - change (String.append (String c s) rp) with (String c (String.append s rp)).
    simpl. by rewrite IH.
Qed.

Lemma rstrip_no_space s : ends_with_space s = false -> Py.rstrip s = s.
Proof.
  induction s as [|c s IH]; [done|]. destruct s as [|d s].
  - simpl. by intros ->.
  - intros H. change (ends_with_space (String d s) = false) in H.
    change (Py.rstrip (String c (String d s)))
      with (match Py.rstrip (String d s) with
            | EmptyString =>
                if Py.is_space c then EmptyString else String c EmptyString
            | t => String c t
            end).
    by rewrite (IH H).
Qed.

(** [strip] takes the blanks off both ends and nothing else. *)
Lemma strip_padded lp n rp :
  all_space lp = true -> all_space rp = true ->
  starts_with_space n = false -> ends_with_space n = false ->
  Py.strip (String.append lp (String.append n rp)) = n.
Proof.
  intros Hlp Hrp Hs He. unfold Py.strip. rewrite lstrip_all_space by done.
  destruct n as [|c n].
  - change (String.append EmptyString rp) with rp.
    assert (Py.lstrip rp = EmptyString) as ->; [|done].
    clear -Hrp. induction rp as [|c rp IH]; simpl; [done|].
    simpl in Hrp. apply andb_true_iff in Hrp as [-> Hrp]. by apply IH.
  - rewrite lstrip_no_space by done.
    by rewrite rstrip_append_space, rstrip_no_space.
Qed.

(** C9. Trim asymmetry. Take a record whose name is [n] between a run of
    leading and a run of trailing whitespace, and whose address is [a]
    padded likewise. Pass 1 stores the name and the address as they
    stand, padding included: each is found among the rows present before
    or among the rows the run appended. Pass 2 looks the stripped strings
    up: the record is filed exactly when its price converts and [n] and
    [a] are keys of the rebuilt dictionaries with non-zero ids. When [n]
    is no stored name, or [a] no stored address, the record is not
    filed, and the link table and the value returned are those the second
    loop yields without the record. *)
Theorem trim_asymmetry (pol : KeyPolicy) (db : Session)
    (pre post : list LocationProductSchema) (item : LocationProductSchema)
    (lp n rp lp' a rp' : string) :
  let feed := pre ++ item :: post in
  let db' := (update_db pol db feed).1 in
  name (product item) = String.append lp (String.append n rp) ->
  address (location item) = String.append lp' (String.append a rp') ->
  all_space lp = true -> all_space rp = true ->
  all_space lp' = true -> all_space rp' = true ->
  starts_with_space n = false -> ends_with_space n = false ->
  starts_with_space a = false -> ends_with_space a = false ->
  (exists added,
     rows (products db') = rows (products db) ++ added /\
     String.append lp (String.append n rp)
     ∈ map Product.name (rows (products db) ++ added)) /\
  (exists added,
     rows (locations db') = rows (locations db) ++ added /\
     String.append lp' (String.append a rp')
     ∈ map Location.address (rows (locations db) ++ added)) /\
  (forall l,
     resolved pol db feed item = Some l <->
     int (price item) = Some l.2 /\
     product_ids (rows (products db')) !! n = Some l.1.1 /\
     location_ids (rows (locations db')) !! a = Some l.1.2 /\
     l.1.1 <> 0 /\ l.1.2 <> 0) /\
  (n ∉ map Product.name (rows (products db')) \/
   a ∉ map Location.address (rows (locations db')) ->
   resolved pol db feed item = None /\
   map link_data (rows (location_products db'))
   = pharm_prod_prices
       (pass2 (product_ids (rows (products db')))
              (location_ids (rows (locations db'))) (pre ++ post)) /\
   (update_db pol db feed).2
   = counter
       (pass2 (product_ids (rows (products db')))
              (location_ids (rows (locations db'))) (pre ++ post))).
Proof.
  intros feed db' Hname Haddr Hlp Hrp Hlp' Hrp' Hns Hne Has Hae.
  assert (item ∈ feed) as Hin by (apply elem_of_app; right; by left).
  assert (Py.strip (name (product item)) = n) as Hsn
    by (rewrite Hname; by apply strip_padded).
  assert (Py.strip (address (location item)) = a) as Hsa
    by (rewrite Haddr; by apply strip_padded).
  assert (forall l,
            resolved pol db feed item = Some l <->
            int (price item) = Some l.2 /\
            product_ids (rows (products db')) !! n = Some l.1.1 /\
            location_ids (rows (locations db')) !! a = Some l.1.2 /\
            l.1.1 <> 0 /\ l.1.2 <> 0) as Hres.
  { intros l. unfold resolved. rewrite link_of_Some. fold db'.
    by rewrite Hsn, Hsa. }
  split_and!.
  - destruct (products_after pol db feed) as (added & Hrows & _).
    exists added. split; [exact Hrows|]. fold db' in Hrows.
    rewrite <- Hrows, <- Hname. by apply names_stored.
  - destruct (locations_after pol db feed) as (added & Hrows & _).
    exists added. split; [exact Hrows|]. fold db' in Hrows.
    rewrite <- Hrows, <- Haddr. by apply addresses_stored.
  - exact Hres.
  - intros Hmiss.
    assert (resolved pol db feed item = None) as Hnone.
    { destruct (resolved pol db feed item) as [l|] eqn:E; [|done]. exfalso.
      destruct (proj1 (Hres l) eq_refl) as (_ & Hp & Hl & _).
      apply product_ids_lookup in Hp as (p & Hp & Hpn & _).
      apply location_ids_lookup in Hl as (lo & Hlo & Hla & _).
      destruct Hmiss as [H|H]; apply H.
      - rewrite <- Hpn. apply list_elem_of_fmap. eauto.
      - rewrite <- Hla. apply list_elem_of_fmap. eauto. }
    split_and!; [exact Hnone| |].
    + unfold db'. rewrite links_after. unfold feed. by rewrite pass2_drop.
    + rewrite counter_after. unfold feed. by rewrite pass2_drop.
Qed.

(** The name with the trailing blank is stored as it stands, the lookup
    goes by the name without it and finds nothing, and only the other
    record is counted. *)
Lemma trim_asymmetry_witness :
  map Product.name (rows (products (update_db Serial empty_db trailing_feed).1))
  = ["Aspirin "; "Ibuprofen"] /\
  resolved Serial empty_db trailing_feed (rec "Aspirin " " Main St" (PInt 10))
  = None /\
  (update_db Serial empty_db trailing_feed).2 = 1.
Proof.
  split; [by vm_compute|].
  pose proof (trim_asymmetry Serial empty_db []
                [rec "Ibuprofen" "Main St" (PInt 7)]
                (rec "Aspirin " " Main St" (PInt 10))
                "" "Aspirin" " " " " "Main St" ""
                eq_refl eq_refl eq_refl eq_refl eq_refl eq_refl
                eq_refl eq_refl eq_refl eq_refl) as H.
  destruct H as (_ & _ & _ & Hskip).
  destruct Hskip as (Hnone & _ & Hcount).
  - left. apply (bool_decide_unpack _). by vm_compute.
  - split; [exact Hnone|]. etrans; [exact Hcount|]. by vm_compute.
Defined.

(** ** Running the same batch again *)

Section SecondRun.

Variable pol : KeyPolicy.
Variable db : Session.
Variable feed : list LocationProductSchema.

Let db1 := (update_db pol db feed).1.

(** Pass 1 of the second run finds every name and address stored. *)
Lemma second_run_queues_nothing :
  pass1 (product_ids (rows (products db1)))
        (location_ids (rows (locations db1))) feed = pass1_init.
Proof.
  set (ep := product_ids (rows (products db1))).
  set (el := location_ids (rows (locations db1))).
  pose proof (pass1_products ep el feed pass1_init) as Hp.
  pose proof (pass1_locations ep el feed pass1_init) as Hl.
  rewrite enqueue_all_stored in Hp, Hl.
  - unfold pass1. destruct (fold_left _ feed pass1_init).
    unfold product_queue, location_queue in *. simpl in *.
    by injection Hp as -> ->; injection Hl as -> ->.
  - intros a Ha. apply list_elem_of_fmap in Ha as (it & -> & Hit).
    apply dict_lookup_is_Some. left. by apply addresses_stored.
  - intros n Hn. apply list_elem_of_fmap in Hn as (it & -> & Hit).
    apply dict_lookup_is_Some. left. by apply names_stored.
Qed.

Lemma second_run_products : products (update_db pol db1 feed).1 = products db1.
Proof.
  change (products (update_db pol db1 feed).1)
    with (bulk_save_objects pol Product.id new_product
            (new_products
               (pass1 (product_ids (rows (products db1)))
                      (location_ids (rows (locations db1))) feed))
            (products db1)).
  by rewrite second_run_queues_nothing.
Qed.

Lemma second_run_locations : locations (update_db pol db1 feed).1 = locations db1.
Proof.
  change (locations (update_db pol db1 feed).1)
    with (bulk_save_objects pol Location.id new_location
            (new_locations
               (pass1 (product_ids (rows (products db1)))
                      (location_ids (rows (locations db1))) feed))
            (locations db1)).
  by rewrite second_run_queues_nothing.
Qed.

Lemma second_run_links :
  map link_data (rows (location_products (update_db pol db1 feed).1))
  = map link_data (rows (location_products db1)).
Proof.
  rewrite links_after. unfold db1 at 3. rewrite links_after.
  by rewrite second_run_products, second_run_locations.
Qed.

Lemma second_run_count : (update_db pol db1 feed).2 = (update_db pol db feed).2.
Proof.
  rewrite !counter_after.
  by rewrite second_run_products, second_run_locations.
Qed.

End SecondRun.

(** C5 (amended). A second run over the same batch leaves the product
    table and the location table as the first run left them, the link
    table with the same (product, location, price) rows in the same
    order, and returns the same count. The link rows are deleted and
    inserted again: under [Rowid] they get the same keys and the whole
    store is the same, under [Serial] they get the next keys of the
    counter, so their own key is not kept. *)
Theorem reconcile_idempotent (db : Session) (feed : list LocationProductSchema) :
  (forall pol,
     let r1 := update_db pol db feed in
     let r2 := update_db pol r1.1 feed in
     products r2.1 = products r1.1 /\
     locations r2.1 = locations r1.1 /\
     map link_data (rows (location_products r2.1))
     = map link_data (rows (location_products r1.1)) /\
     r2.2 = r1.2) /\
  update_db Rowid (update_db Rowid db feed).1 feed = update_db Rowid db feed.
Proof.
  split.
  - intros pol r1 r2. split_and!.
    + apply second_run_products.
    + apply second_run_locations.
    + apply second_run_links.
    + apply second_run_count.
  - pose proof (second_run_products Rowid db feed) as Hp.
    pose proof (second_run_locations Rowid db feed) as Hl.
    pose proof (second_run_count Rowid db feed) as Hc.
    set (r1 := update_db Rowid db feed) in *.
    assert (location_products (update_db Rowid r1.1 feed).1 = location_products r1.1)
      as Hlp.
    { change (location_products (update_db Rowid r1.1 feed).1)
        with (bulk_save_objects Rowid LocationProduct.id new_link
                (pharm_prod_prices
                   (pass2 (product_ids (rows (products (update_db Rowid r1.1 feed).1)))
                          (location_ids (rows (locations (update_db Rowid r1.1 feed).1)))
                          feed))
                (delete_all (location_products r1.1))).
      rewrite Hp, Hl.
      change (location_products r1.1)
        with (bulk_save_objects Rowid LocationProduct.id new_link
                (pharm_prod_prices
                   (pass2 (product_ids (rows (products r1.1)))
                          (location_ids (rows (locations r1.1))) feed))
                (delete_all (location_products db))) at 2.
      f_equal. unfold delete_all. f_equal.
      change (location_products r1.1)
        with (bulk_save_objects Rowid LocationProduct.id new_link
                (pharm_prod_prices
                   (pass2 (product_ids (rows (products r1.1)))
                          (location_ids (rows (locations r1.1))) feed))
                (delete_all (location_products db))).
      by rewrite bulk_save_seq_rowid. }
    destruct (update_db Rowid r1.1 feed) as [db2 n2] eqn:E2.
    destruct r1 as [db1 n1] eqn:E1. simpl in *.
    destruct db2, db1. simpl in *. congruence.
Qed.

(** With a serial counter a second run over the two quotes for Aspirin
    stores the link row again under the key 2, where the first run had
    stored it under the key 1. *)
Lemma second_run_renumbers_links : ¬ same_store_claim Serial empty_db aspirin_feed.
Proof.
  intros (_ & _ & H & _). vm_compute in H. discriminate H.
Qed.

(** ** A batch of valid records with one malformed price *)




Section ValidBatch.

Variable pol : KeyPolicy.
Variable db : Session.
Variable feed : list LocationProductSchema.

Hypothesis products_ok : keys_ok pol Product.id (products db).
Hypothesis locations_ok : keys_ok pol Location.id (locations db).

Let db' := (update_db pol db feed).1.

Lemma products_ok_after : keys_ok pol Product.id (products db').
Proof. by apply bulk_save_keys_ok. Qed.

Lemma locations_ok_after : keys_ok pol Location.id (locations db').
Proof. by apply bulk_save_keys_ok. Qed.



End ValidBatch.




(** ** Further properties of the run *)

(** A name is queued only if the scan met it. *)
Lemma enqueue_all_source existing ns q m :
  m ∈ (fold_left (enqueue existing) ns q).2 -> m ∈ q.2 \/ m ∈ ns.
Proof.
  revert q. induction ns as [|n ns IH]; intros q; simpl; [by left|].
  intros H. apply IH in H as [H|H]; [|right; by right].
  unfold enqueue in H. case_match; simpl in H; [|by left].
  apply elem_of_app in H as [H|H]; [by left|].
  apply list_elem_of_singleton in H. subst m. right. by left.
Qed.

Section FreshKeys.

Context {A R : Type} (pol : KeyPolicy) (key : R -> Z) (mk : A -> Z -> R).
Hypothesis key_mk : forall o k, key (mk o k) = k.

(** Every row a bulk save appends gets a positive key above all the keys
    the table held before. *)
Lemma bulk_save_fresh (objs : list A) (t : Table R) :
  keys_ok pol key t ->
  exists added,
    rows (bulk_save_objects pol key mk objs t) = rows t ++ added /\
    Forall2 (fun o r => exists k, r = mk o k) objs added /\
    forall a, a ∈ added ->
      0 < key a /\ forall r, r ∈ rows t -> key r < key a.
Proof.
  intros Hok. induction objs as [|o objs IH] using rev_ind.
  - exists []. split_and!; [by rewrite app_nil_r|constructor|].
    intros a Ha. by apply elem_of_nil in Ha.
  - destruct IH as (added & Hrows & Hall & Hfresh).
    pose proof (bulk_save_keys_ok pol key mk key_mk objs t Hok) as Hok'.
    destruct (next_key_fresh pol key _ Hok') as [Hpos Hnew].
    exists (added ++ [mk o (next_key pol key (bulk_save_objects pol key mk objs t))]).
    rewrite bulk_save_snoc. simpl. rewrite Hrows, <- app_assoc. split_and!; [done| |].
    + apply Forall2_app; [done|]. repeat constructor. eauto.
    + intros a Ha. apply elem_of_app in Ha as [Ha|Ha]; [by apply Hfresh|].
      apply list_elem_of_singleton in Ha. subst a. rewrite key_mk.
      split; [done|]. intros r Hr. apply Hnew. rewrite Hrows.
      apply elem_of_app. by left.
Qed.

End FreshKeys.

(** The rows pass 1 appends, and the records they come from. *)
Lemma appended_rows_source (pol : KeyPolicy) (db : Session)
    (feed : list LocationProductSchema) :
  exists ps ls,
    rows (products (update_db pol db feed).1) = rows (products db) ++ ps /\
    rows (locations (update_db pol db feed).1) = rows (locations db) ++ ls /\
    Forall (fun p => exists item, item ∈ feed /\
                       Product.name p = name (product item)) ps /\
    Forall (fun l => Location.phone l = None /\
                     exists item, item ∈ feed /\
                       Location.address l = address (location item)) ls.
Proof.
  destruct (bulk_save_rows pol Product.id new_product
              (new_products (pass1 (product_ids (rows (products db)))
                                   (location_ids (rows (locations db))) feed))
              (products db)) as (ps & Hps & Hallp).
  destruct (bulk_save_rows pol Location.id new_location
              (new_locations (pass1 (product_ids (rows (products db)))
                                    (location_ids (rows (locations db))) feed))
              (locations db)) as (ls & Hls & Halll).
  exists ps, ls. split_and!; [exact Hps|exact Hls| |].
  - apply Forall_forall. intros p Hp.
    apply list_elem_of_lookup in Hp as (i & Hi).
    destruct (Forall2_lookup_r _ _ _ i p Hallp Hi) as (n & Hn & k & ->).
    simpl. apply list_elem_of_lookup_2 in Hn.
    rewrite new_products_queue in Hn.
    apply enqueue_all_source in Hn as [Hn|Hn]; [by apply elem_of_nil in Hn|].
    apply list_elem_of_fmap in Hn as (item & -> & Hitem). eauto.
  - apply Forall_forall. intros l Hl.
    apply list_elem_of_lookup in Hl as (i & Hi).
    destruct (Forall2_lookup_r _ _ _ i l Halll Hi) as (a & Ha & k & ->).
    simpl. split; [done|]. apply list_elem_of_lookup_2 in Ha.
    rewrite new_locations_queue in Ha.
    apply enqueue_all_source in Ha as [Ha|Ha]; [by apply elem_of_nil in Ha|].
    apply list_elem_of_fmap in Ha as (item & -> & Hitem). eauto.
Qed.

(** X1. The run only appends to the product table and to the location
    table: the rows stored before are still there, unchanged and in
    place, and every appended row carries the name (address) of a record
    of the batch as it stands there; a new location has no phone. *)
Theorem entities_append_only (pol : KeyPolicy) (db : Session)
    (feed : list LocationProductSchema) :
  exists ps ls,
    rows (products (update_db pol db feed).1) = rows (products db) ++ ps /\
    rows (locations (update_db pol db feed).1) = rows (locations db) ++ ls /\
    Forall (fun p => exists item, item ∈ feed /\
                       Product.name p = name (product item)) ps /\
    Forall (fun l => Location.phone l = None /\
                     exists item, item ∈ feed /\
                       Location.address l = address (location item)) ls.
Proof. apply appended_rows_source. Qed.

(** X2. The product names after the run are the names stored before and
    the names of the batch records, as they stand and whatever the price
    of the record is worth; likewise for the addresses. *)
Theorem stored_names_exact (pol : KeyPolicy) (db : Session)
    (feed : list LocationProductSchema) (n : string) :
  (n ∈ map Product.name (rows (products (update_db pol db feed).1)) <->
   n ∈ map Product.name (rows (products db)) \/
   exists item, item ∈ feed /\ name (product item) = n) /\
  (n ∈ map Location.address (rows (locations (update_db pol db feed).1)) <->
   n ∈ map Location.address (rows (locations db)) \/
   exists item, item ∈ feed /\ address (location item) = n).
Proof.
  destruct (appended_rows_source pol db feed) as (ps & ls & Hps & Hls & Hp & Hl).
  rewrite Forall_forall in Hp. rewrite Forall_forall in Hl. split; split.
  - rewrite Hps, map_app, elem_of_app. intros [H|H]; [by left|right].
    apply list_elem_of_fmap in H as (p & -> & Hin).
    destruct (Hp p Hin) as (item & Hitem & ->). eauto.
  - intros [H|(item & Hitem & <-)]; [|by apply names_stored].
    rewrite Hps, map_app. apply elem_of_app. by left.
  - rewrite Hls, map_app, elem_of_app. intros [H|H]; [by left|right].
    apply list_elem_of_fmap in H as (l & -> & Hin).
    destruct (Hl l Hin) as (_ & item & Hitem & ->). eauto.
  - intros [H|(item & Hitem & <-)]; [|by apply addresses_stored].
    rewrite Hls, map_app. apply elem_of_app. by left.
Qed.

(** The links the second loop appends are, in order, links of records
    of the scan. *)
Lemma pass2_sublist ep el items s :
  exists added,
    pharm_prod_prices (fold_left (pass2_step ep el) items s)
    = pharm_prod_prices s ++ added /\
    added `sublist_of` omap (link_of ep el) items.
Proof.
  revert s. induction items as [|it items IH]; intros s; simpl.
  - exists []. split; [by rewrite app_nil_r|constructor].
  - destruct (IH (pass2_step ep el s it)) as (added & Hlist & Hsub).
    destruct (pass2_step_cases ep el s it) as [[Heq Hwhy]|(l0 & Hl0 & Hnew & Heq)].
    + exists added. rewrite Hlist, Heq. split; [done|].
      destruct (link_of ep el it); [by apply sublist_cons|done].
    + exists (l0 :: added). rewrite Hlist, Heq. simpl. rewrite <- app_assoc.
      split; [done|]. rewrite Hl0. by apply sublist_skip.
Qed.

Lemma omap_link_length ep el items :
  (length (omap (link_of ep el) items)
   <= length (filter (fun it => is_Some (int (price it))) items))%nat.
Proof.
  induction items as [|it items IH]; simpl; [done|].
  destruct (link_of ep el it) as [l|] eqn:E.
  - apply link_of_Some in E as (Hint & _).
    rewrite filter_cons_True by eauto. simpl. apply le_n_S, IH.
  - destruct (decide (is_Some (int (price it)))).
    + rewrite filter_cons_True by done. simpl. apply le_S, IH.
    + rewrite filter_cons_False by done. exact IH.
Qed.

Lemma pass2_unfiled ep el items s :
  (forall item, item ∈ items -> link_of ep el item = None) ->
  fold_left (pass2_step ep el) items s = s.
Proof.
  revert s. induction items as [|it items IH]; intros s Hall; simpl; [done|].
  rewrite pass2_step_skip by (apply Hall; by left).
  apply IH. intros item Hitem. apply Hall. by right.
Qed.

(** X3. The value returned is the number of link rows the run leaves in
    the table, and it is at most the number of records of the batch
    whose price converts. *)
Theorem count_bounds (pol : KeyPolicy) (db : Session)
    (feed : list LocationProductSchema) :
  (update_db pol db feed).2
  = Z.of_nat (length (rows (location_products (update_db pol db feed).1))) /\
  (length (rows (location_products (update_db pol db feed).1))
   <= length (filter (fun it => is_Some (int (price it))) feed))%nat.
Proof.
  split; [apply count_is_length|].
  rewrite <- (length_map link_data), links_after.
  destruct (pass2_sublist (product_ids (rows (products (update_db pol db feed).1)))
              (location_ids (rows (locations (update_db pol db feed).1)))
              feed pass2_init) as (added & Heq & Hsub).
  unfold pass2. rewrite Heq. simpl.
  etrans; [by apply sublist_length|]. apply omap_link_length.
Qed.

(** X9. The link rows stand in batch order: their (product, location,
    price) columns are what is left of the links of the records, taken in
    the order of the batch, once the skipped ones are dropped. *)
Theorem links_in_batch_order (pol : KeyPolicy) (db : Session)
    (feed : list LocationProductSchema) :
  map link_data (rows (location_products (update_db pol db feed).1))
  `sublist_of` omap (resolved pol db feed) feed.
Proof.
  rewrite links_after.
  destruct (pass2_sublist (product_ids (rows (products (update_db pol db feed).1)))
              (location_ids (rows (locations (update_db pol db feed).1)))
              feed pass2_init) as (added & Heq & Hsub).
  unfold pass2. rewrite Heq. exact Hsub.
Qed.

(** X4. After the run no two link rows have the same (product_id,
    location_id), and no link row has a zero product_id or location_id:
    a key that is falsy in Python is treated as not found. *)
Theorem link_pairs_unique (pol : KeyPolicy) (db : Session)
    (feed : list LocationProductSchema) :
  NoDup (map link_key (rows (location_products (update_db pol db feed).1))) /\
  Forall (fun row => LocationProduct.product_id row <> 0 /\
                     LocationProduct.location_id row <> 0)
    (rows (location_products (update_db pol db feed).1)).
Proof.
  split; [apply links_nodup|]. apply Forall_forall. intros row Hrow.
  destruct (links_source pol db feed row Hrow) as (pre & c & post & _ & Hc & _).
  by apply link_of_Some in Hc as (_ & _ & _ & Hp & Hl).
Qed.

(** X6. When pass 2 files no record of the batch (every price is
    malformed, say, or the batch is empty), the run leaves the link
    table empty and returns 0, whatever the table held before. *)
Theorem nothing_filed_empties_links (pol : KeyPolicy) (db : Session)
    (feed : list LocationProductSchema) :
  (forall item, item ∈ feed -> resolved pol db feed item = None) ->
  rows (location_products (update_db pol db feed).1) = [] /\
  (update_db pol db feed).2 = 0.
Proof.
  intros Hnone.
  assert (rows (location_products (update_db pol db feed).1) = []) as Hrows.
  { apply (fmap_nil_inv link_data). rewrite links_after. unfold pass2.
    by rewrite pass2_unfiled. }
  split; [exact Hrows|]. by rewrite count_is_length, Hrows.
Qed.

Lemma nothing_filed_empties_links_witness :
  rows (location_products stocked_db) <> [] /\
  rows (location_products
          (update_db Serial stocked_db
             [bad_record; rec "Aspirin" "Main St" (PStr "1.5")]).1) = [] /\
  (update_db Serial stocked_db
     [bad_record; rec "Aspirin" "Main St" (PStr "1.5")]).2 = 0.
Proof.
  split; [by vm_compute|].
  apply (nothing_filed_empties_links Serial stocked_db
           [bad_record; rec "Aspirin" "Main St" (PStr "1.5")]).
  intros item Hin.
  apply elem_of_cons in Hin as [->|Hin]; [by vm_compute|].
  apply list_elem_of_singleton in Hin. subst item. by vm_compute.
Defined.

Lemma delete_all_keys_ok {R} pol (key : R -> Z) (t : Table R) :
  keys_ok pol key t -> keys_ok pol key (delete_all t).
Proof.
  intros (_ & _ & Hseq). unfold keys_ok, delete_all. simpl.
  split_and!; [constructor|constructor|].
  destruct pol; [|done]. destruct Hseq as [Hs _]. split; [done|constructor].
Qed.

(** X5. Primary keys stay sound: from tables whose keys are pairwise
    distinct and positive (and, under [Serial], not above the counter)
    the run leads to tables with the same property, the link table
    included. *)
Theorem primary_keys_preserved (pol : KeyPolicy) (db : Session)
    (feed : list LocationProductSchema) :
  keys_ok pol Product.id (products db) ->
  keys_ok pol Location.id (locations db) ->
  keys_ok pol LocationProduct.id (location_products db) ->
  keys_ok pol Product.id (products (update_db pol db feed).1) /\
  keys_ok pol Location.id (locations (update_db pol db feed).1) /\
  keys_ok pol LocationProduct.id (location_products (update_db pol db feed).1).
Proof.
  intros Hp Hl Hlp. split_and!.
  - by apply products_ok_after.
  - by apply locations_ok_after.
  - apply bulk_save_keys_ok; [done|]. by apply delete_all_keys_ok.
Qed.

Ltac keys_ok_by_compute :=
  split_and!; [apply (bool_decide_unpack _); by vm_compute
              |apply (bool_decide_unpack _); by vm_compute
              |by vm_compute
              |apply (bool_decide_unpack _); by vm_compute].

Lemma primary_keys_preserved_witness :
  keys_ok Serial Product.id (products (update_db Serial stocked_db mixed_feed).1) /\
  keys_ok Serial Location.id (locations (update_db Serial stocked_db mixed_feed).1) /\
  keys_ok Serial LocationProduct.id
    (location_products (update_db Serial stocked_db mixed_feed).1).
Proof.
  apply (primary_keys_preserved Serial stocked_db mixed_feed); keys_ok_by_compute.
Defined.

(** X7. Keys are never reused: every product row and every location row
    the run appends has a positive key above all the keys its table held
    before the run. *)
Theorem appended_keys_fresh (pol : KeyPolicy) (db : Session)
    (feed : list LocationProductSchema) :
  keys_ok pol Product.id (products db) ->
  keys_ok pol Location.id (locations db) ->
  exists ps ls,
    rows (products (update_db pol db feed).1) = rows (products db) ++ ps /\
    rows (locations (update_db pol db feed).1) = rows (locations db) ++ ls /\
    (forall a, a ∈ ps ->
       0 < Product.id a /\
       forall r, r ∈ rows (products db) -> Product.id r < Product.id a) /\
    (forall a, a ∈ ls ->
       0 < Location.id a /\
       forall r, r ∈ rows (locations db) -> Location.id r < Location.id a).
Proof.
  intros Hp Hl.
  destruct (bulk_save_fresh pol Product.id new_product (fun _ _ => eq_refl)
              (new_products (pass1 (product_ids (rows (products db)))
                                   (location_ids (rows (locations db))) feed))
              (products db) Hp) as (ps & Hps & _ & Hfp).
  destruct (bulk_save_fresh pol Location.id new_location (fun _ _ => eq_refl)
              (new_locations (pass1 (product_ids (rows (products db)))
                                    (location_ids (rows (locations db))) feed))
              (locations db) Hl) as (ls & Hls & _ & Hfl).
  by exists ps, ls.
Qed.

Lemma appended_keys_fresh_witness :
  exists ps ls,
    rows (products (update_db Rowid stocked_db mixed_feed).1)
    = rows (products stocked_db) ++ ps /\
    rows (locations (update_db Rowid stocked_db mixed_feed).1)
    = rows (locations stocked_db) ++ ls /\
    (forall a, a ∈ ps ->
       0 < Product.id a /\
       forall r, r ∈ rows (products stocked_db) -> Product.id r < Product.id a) /\
    (forall a, a ∈ ls ->
       0 < Location.id a /\
       forall r, r ∈ rows (locations stocked_db) -> Location.id r < Location.id a).
Proof.
  apply (appended_keys_fresh Rowid stocked_db mixed_feed);
    (split_and!; [apply (bool_decide_unpack _); by vm_compute
                 |apply (bool_decide_unpack _); by vm_compute
                 |done]).
Defined.

Lemma dict_lookup_other {R} (k : R -> string) (v : R -> Z) (l : list R)
    (m : gmap string Z) (n : string) :
  n ∉ map k l -> fold_left (fun m r => <[k r := v r]> m) l m !! n = m !! n.
Proof.
  revert m. induction l as [|r l IH]; simpl; intros m Hn; [done|].
  rewrite IH by (intros H; apply Hn; by right).
  apply lookup_insert_ne. intros Heq. apply Hn. rewrite <- Heq. by left.
Qed.

(** X8. Known entities keep their key: a name (address) that resolves to
    a key before the run resolves to the same key in the dictionaries
    rebuilt after pass 1. *)
Theorem known_ids_stable (pol : KeyPolicy) (db : Session)
    (feed : list LocationProductSchema) (n : string) (i : Z) :
  (product_ids (rows (products db)) !! n = Some i ->
   product_ids (rows (products (update_db pol db feed).1)) !! n = Some i) /\
  (location_ids (rows (locations db)) !! n = Some i ->
   location_ids (rows (locations (update_db pol db feed).1)) !! n = Some i).
Proof.
  split; intros Hn.
  - destruct (products_after pol db feed) as (added & -> & Hnames).
    unfold product_ids. rewrite fold_left_app, dict_lookup_other; [exact Hn|].
    rewrite Hnames, new_products_queue. intros Hq.
    pose proof (enqueue_all_ok (product_ids (rows (products db)))
                  (map (fun it => name (product it)) feed) (∅, [])
                  (queue_ok_init _)) as (_ & _ & Hnew).
    apply Hnew in Hq. congruence.
  - destruct (locations_after pol db feed) as (added & -> & Hnames).
    unfold location_ids. rewrite fold_left_app, dict_lookup_other; [exact Hn|].
    rewrite Hnames, new_locations_queue. intros Hq.
    pose proof (enqueue_all_ok (location_ids (rows (locations db)))
                  (map (fun it => address (location it)) feed) (∅, [])
                  (queue_ok_init _)) as (_ & _ & Hnew).
    apply Hnew in Hq. congruence.
Qed.

(** *** Stripping twice *)

Lemma rstrip_idemp s : Py.rstrip (Py.rstrip s) = Py.rstrip s.
Proof.
  induction s as [|c s IH]; simpl; [done|].
  destruct (Py.rstrip s) as [|d u] eqn:E.
  - destruct (Py.is_space c) eqn:Ec; simpl; [done|]. by rewrite Ec.
  - change (Py.rstrip (String c (String d u)))
      with (match Py.rstrip (String d u) with
            | EmptyString =>
                if Py.is_space c then EmptyString else String c EmptyString
            | t => String c t
            end).
    by rewrite IH.
Qed.

Lemma lstrip_head s :
  Py.lstrip s = EmptyString \/
  exists c t, Py.lstrip s = String c t /\ Py.is_space c = false.
Proof.
  induction s as [|c s IH]; simpl; [by left|].
  destruct (Py.is_space c) eqn:Ec; [done|]. right. eauto.
Qed.

Lemma lstrip_rstrip_head c t :
  Py.is_space c = false ->
  Py.lstrip (Py.rstrip (String c t)) = Py.rstrip (String c t).
Proof.
  intros Ec. simpl. destruct (Py.rstrip t); rewrite ?Ec; simpl; by rewrite ?Ec.
Qed.

Lemma strip_idemp s : Py.strip (Py.strip s) = Py.strip s.
Proof.
  unfold Py.strip. destruct (lstrip_head s) as [->|(c & t & -> & Ec)]; [done|].
  by rewrite lstrip_rstrip_head, rstrip_idemp.
Qed.

(** X10. Links only point at trimmed entities: after the run, the
    product a link row refers to has a name without surrounding
    whitespace, and its location an address without; a row stored
    under a padded string is never linked. *)
Theorem links_point_at_trimmed (pol : KeyPolicy) (db : Session)
    (feed : list LocationProductSchema) (row : LocationProduct.t) :
  row ∈ rows (location_products (update_db pol db feed).1) ->
  (exists p, p ∈ rows (products (update_db pol db feed).1) /\
             Product.id p = LocationProduct.product_id row /\
             Py.strip (Product.name p) = Product.name p) /\
  (exists l, l ∈ rows (locations (update_db pol db feed).1) /\
             Location.id l = LocationProduct.location_id row /\
             Py.strip (Location.address l) = Location.address l).
Proof.
  intros Hrow.
  destruct (links_source pol db feed row Hrow) as (pre & c & post & _ & Hc & _).
  apply link_of_Some in Hc as (_ & Hp & Hl & _). simpl in Hp, Hl. split.
  - apply product_ids_lookup in Hp as (p & Hin & Hname & Hid).
    exists p. split_and!; [done..|]. rewrite Hname. apply strip_idemp.
  - apply location_ids_lookup in Hl as (l & Hin & Haddr & Hid).
    exists l. split_and!; [done..|]. rewrite Haddr. apply strip_idemp.
Qed.

Lemma links_point_at_trimmed_witness :
  (exists p, p ∈ rows (products (update_db Serial empty_db padded_feed).1) /\
             Product.id p = 2 /\ Py.strip (Product.name p) = Product.name p) /\
  (exists l, l ∈ rows (locations (update_db Serial empty_db padded_feed).1) /\
             Location.id l = 1 /\
             Py.strip (Location.address l) = Location.address l).
Proof.
  apply (links_point_at_trimmed Serial empty_db padded_feed
           {| LocationProduct.id := 1; LocationProduct.product_id := 2;
              LocationProduct.location_id := 1; LocationProduct.price := 7 |}).
  vm_compute. constructor.
Defined.

(** X11. After a run [get_all_products] lists every product name of the
    batch: for a record of the batch the answer is a list, and the name
    of the record is in it. *)
Theorem batch_names_listed (pol : KeyPolicy) (db : Session)
    (feed : list LocationProductSchema) (item : LocationProductSchema) :
  item ∈ feed ->
  exists names,
    get_all_products (update_db pol db feed).1 = Some names /\
    name (product item) ∈ names.
Proof.
  intros Hin. pose proof (names_stored pol db feed item Hin) as Hn.
  unfold get_all_products.
  destruct (rows (products (update_db pol db feed).1)) as [|p ps] eqn:E.
  - by apply elem_of_nil in Hn.
  - eauto.
Qed.

Lemma batch_names_listed_witness :
  exists names,
    get_all_products (update_db Serial empty_db padded_feed).1 = Some names /\
    " Aspirin" ∈ names.
Proof.
  apply (batch_names_listed Serial empty_db padded_feed
           (rec " Aspirin" "Main St" (PInt 10))).
  by left.
Defined.



(** ** The read queries *)

Lemma find_elem {A} (f : A -> bool) (l : list A) (x : A) :
  List.find f l = Some x -> x ∈ l /\ f x = true.
Proof.
  intros H. apply find_some in H as [Hin Hf]. by apply list_elem_of_In in Hin.
Qed.

Lemma find_is_Some {A} (f : A -> bool) (l : list A) (x : A) :
  x ∈ l -> f x = true -> exists y, List.find f l = Some y.
Proof.
  intros Hin Hf. destruct (List.find f l) as [y|] eqn:E; [eauto|].
  apply list_elem_of_In in Hin. rewrite (find_none f l E x Hin) in Hf. done.
Qed.

Lemma append_cons c s t : String.append (String c s) t = String c (String.append s t).
Proof. reflexivity. Qed.

Lemma append_nil t : String.append EmptyString t = t.
Proof. reflexivity. Qed.

Lemma append_empty_r s : String.append s EmptyString = s.
Proof. induction s as [|c s IH]; [done|]. by rewrite append_cons, IH. Qed.

(** *** LIKE *)

Section Like.

Variable esc : option ascii.
Hypothesis percent_plain : Sql.is_escape esc "%"%char = false.

Lemma like_percent p s :
  Sql.like esc (String "%"%char p) s
  = Sql.like esc p s
    || match s with
       | EmptyString => false
       | String _ s' => Sql.like esc (String "%"%char p) s'
       end.
Proof. destruct s; simpl; by rewrite percent_plain. Qed.

Lemma like_percent_cons p c s :
  Sql.like esc (String "%"%char p) (String c s)
  = Sql.like esc p (String c s) || Sql.like esc (String "%"%char p) s.
Proof. by rewrite like_percent. Qed.

Lemma like_char c p s :
  Sql.is_escape esc c = false -> Ascii.eqb c "%"%char = false ->
  Sql.like esc (String c p) s
  = match s with
    | EmptyString => false
    | String d s' => (Ascii.eqb c "_"%char || Ascii.eqb c d) && Sql.like esc p s'
    end.
Proof. intros He Hp. simpl. by rewrite He, Hp. Qed.

Lemma like_percent_all s : Sql.like esc "%" s = true.
Proof.
  induction s as [|c s IH]; [by rewrite like_percent|].
  rewrite like_percent_cons, IH. by rewrite orb_true_r.
Qed.

(** A pattern that ends in [%] matches every string that starts with the
    text before the [%], wildcards of the text included, as long as the
    text holds no escape character. *)
Lemma like_own_prefix n b :
  Sql.no_escape esc n = true ->
  Sql.like esc (String.append n "%") (String.append n b) = true.
Proof.
  induction n as [|c n IH]; rewrite ?append_nil, ?append_cons; intros Hn;
    [apply like_percent_all|].
  simpl in Hn. apply andb_true_iff in Hn as [Hc Hn]. apply negb_true_iff in Hc.
  destruct (Ascii.eqb c "%"%char) eqn:E.
  - apply Ascii.eqb_eq in E. subst c. rewrite like_percent_cons.
    rewrite (like_percent (String.append n "%") (String.append n b)).
    rewrite (IH Hn). by rewrite !orb_true_r.
  - rewrite like_char by done. rewrite (IH Hn), Ascii.eqb_refl.
    by rewrite orb_true_r.
Qed.

Lemma like_skip p a s :
  Sql.like esc (String "%"%char p) s = true ->
  Sql.like esc (String "%"%char p) (String.append a s) = true.
Proof.
  intros H. induction a as [|c a IH]; rewrite ?append_nil, ?append_cons; [done|].
  rewrite like_percent_cons, IH. by rewrite orb_true_r.
Qed.

Lemma like_contains a n b :
  Sql.no_escape esc n = true ->
  Sql.like esc (contains_pattern n) (String.append a (String.append n b)) = true.
Proof.
  intros Hn. unfold contains_pattern. apply like_skip.
  by rewrite like_percent, like_own_prefix.
Qed.

Lemma like_percent_inv p s :
  Sql.like esc (String "%"%char p) s = true ->
  exists a t, s = String.append a t /\ Sql.like esc p t = true.
Proof.
  induction s as [|c s IH].
  - rewrite like_percent, orb_false_r. intros H. by exists EmptyString, EmptyString.
  - rewrite like_percent_cons. intros H. apply orb_true_iff in H as [H|H].
    + by exists EmptyString, (String c s).
    + destruct (IH H) as (a & t & -> & Ht). by exists (String c a), t.
Qed.

Lemma like_literal_prefix n s :
  no_wildcard n = true -> Sql.no_escape esc n = true ->
  Sql.like esc (String.append n "%") s = true ->
  exists b, s = String.append n b.
Proof.
  revert s. induction n as [|c n IH]; intros s Hn He H.
  - by exists s.
  - simpl in Hn, He. apply andb_true_iff in Hn as [Hc Hn].
    apply andb_true_iff in Hc as [Hp Hu]. apply andb_true_iff in He as [Hce He].
    apply negb_true_iff in Hp, Hu, Hce.
    rewrite append_cons, like_char in H by done.
    destruct s as [|d s]; [done|]. rewrite Hu in H. simpl in H.
    apply andb_true_iff in H as [Hd H]. apply Ascii.eqb_eq in Hd. subst d.
    destruct (IH s Hn He H) as (b & ->). by exists b.
Qed.

(** Without wildcards and escape characters in the text, the pattern
    matches only the strings that hold the text. *)
Lemma like_contains_inv n s :
  no_wildcard n = true -> Sql.no_escape esc n = true ->
  Sql.like esc (contains_pattern n) s = true ->
  exists a b, s = String.append a (String.append n b).
Proof.
  intros Hn He H. unfold contains_pattern in H.
  apply like_percent_inv in H as (a & t & -> & Ht).
  destruct (like_literal_prefix n t Hn He Ht) as (b & ->). eauto.
Qed.

End Like.

(** *** Folding *)

Lemma percent_not_escape d : Sql.is_escape (Sql.escape d) "%"%char = false.
Proof. by destruct d. Qed.

Lemma fold_str_app d a b :
  Sql.fold_str d (String.append a b)
  = String.append (Sql.fold_str d a) (Sql.fold_str d b).
Proof.
  induction a as [|c a IH]; [done|]. rewrite append_cons. simpl.
  by rewrite IH.
Qed.

Lemma fold_str_pattern d n :
  Sql.fold_str d (contains_pattern n) = contains_pattern (Sql.fold_str d n).
Proof.
  unfold contains_pattern. simpl. rewrite fold_str_app. by destruct d.
Qed.

Lemma fold_keeps_marks d c :
  Ascii.eqb (Sql.fold d c) "%"%char = Ascii.eqb c "%"%char /\
  Ascii.eqb (Sql.fold d c) "_"%char = Ascii.eqb c "_"%char /\
  Sql.is_escape (Sql.escape d) (Sql.fold d c) = Sql.is_escape (Sql.escape d) c.
Proof. by destruct d, c as [[] [] [] [] [] [] [] []]. Qed.

Lemma py_lower_keeps_marks d c :
  Ascii.eqb (py_lower_char c) "%"%char = Ascii.eqb c "%"%char /\
  Ascii.eqb (py_lower_char c) "_"%char = Ascii.eqb c "_"%char /\
  Sql.is_escape (Sql.escape d) (py_lower_char c) = Sql.is_escape (Sql.escape d) c.
Proof. by destruct d, c as [[] [] [] [] [] [] [] []]. Qed.

Lemma no_wildcard_fold d n : no_wildcard (Sql.fold_str d n) = no_wildcard n.
Proof.
  induction n as [|c n IH]; simpl; [done|].
  destruct (fold_keeps_marks d c) as (-> & -> & _). by rewrite IH.
Qed.

Lemma no_escape_fold d n :
  Sql.no_escape (Sql.escape d) (Sql.fold_str d n) = Sql.no_escape (Sql.escape d) n.
Proof.
  induction n as [|c n IH]; simpl; [done|].
  destruct (fold_keeps_marks d c) as (_ & _ & ->). by rewrite IH.
Qed.

Lemma no_wildcard_py_lower n : no_wildcard (py_lower n) = no_wildcard n.
Proof.
  induction n as [|c n IH]; simpl; [done|].
  destruct (py_lower_keeps_marks Sql.Sqlite c) as (-> & -> & _). by rewrite IH.
Qed.

Lemma no_escape_py_lower d n :
  Sql.no_escape (Sql.escape d) (py_lower n) = Sql.no_escape (Sql.escape d) n.
Proof.
  induction n as [|c n IH]; simpl; [done|].
  destruct (py_lower_keeps_marks d c) as (_ & _ & ->). by rewrite IH.
Qed.

(** The folded name holds the folded query, and the query has no escape
    character: the pattern matches. *)
Lemma ilike_contains d q s a b :
  Sql.no_escape (Sql.escape d) q = true ->
  Sql.fold_str d s
  = String.append a (String.append (Sql.fold_str d q) b) ->
  Sql.ilike d (contains_pattern q) s = true.
Proof.
  intros Hq H. unfold Sql.ilike. rewrite fold_str_pattern, H.
  apply like_contains; [apply percent_not_escape|by rewrite no_escape_fold].
Qed.

(** A name without escape character is matched by the pattern built from
    itself. *)
Lemma ilike_self d n :
  Sql.no_escape (Sql.escape d) n = true ->
  Sql.ilike d (contains_pattern n) n = true.
Proof.
  intros Hn. apply (ilike_contains d n n EmptyString EmptyString Hn).
  by rewrite append_nil, append_empty_r.
Qed.

Lemma filter_empty_query d (ps : list Product.t) :
  List.filter (name_ilike d "") ps = ps.
Proof.
  induction ps as [|p ps IH]; simpl; [done|].
  unfold name_ilike at 1.
  rewrite (ilike_contains d "" (Product.name p) ""
             (Sql.fold_str d (Product.name p))) by done.
  by rewrite IH.
Qed.

(** X17. For an ASCII query without [%], [_] and escape character,
    [get_products_by_name] lists exactly the names of the products whose
    name, folded by the engine, holds the lowered query folded the same
    way; the list is there even when it is empty. *)
Theorem products_by_name_exact (d : Sql.Dialect) (db : Session) (q : string) :
  ascii_only q = true ->
  no_wildcard q = true ->
  Sql.no_escape (Sql.escape d) q = true ->
  exists names,
    get_products_by_name d db q = Some names /\
    forall n, n ∈ names <->
      exists p, p ∈ rows (products db) /\ Product.name p = n /\
        exists a b,
          Sql.fold_str d (Product.name p)
          = String.append a (String.append (Sql.fold_str d (py_lower q)) b).
Proof.
  intros _ Hq He. eexists. split; [reflexivity|]. intros n.
  rewrite list_elem_of_fmap. split.
  - intros (p & -> & Hp). apply list_elem_of_In, filter_In in Hp as [Hp Hm].
    apply list_elem_of_In in Hp.
    exists p. split_and!; [done..|].
    unfold name_ilike, Sql.ilike in Hm. rewrite fold_str_pattern in Hm.
    apply like_contains_inv in Hm; [done|apply percent_not_escape| |].
    + by rewrite no_wildcard_fold, no_wildcard_py_lower.
    + by rewrite no_escape_fold, no_escape_py_lower.
  - intros (p & Hp & <- & a & b & Hab). exists p. split; [done|].
    apply list_elem_of_In, filter_In. split; [by apply list_elem_of_In|].
    eapply ilike_contains; [|exact Hab]. by rewrite no_escape_py_lower.
Qed.

Lemma products_by_name_exact_witness :
  exists names,
    get_products_by_name Sql.Postgres stocked_db "PRO" = Some names /\
    forall n, n ∈ names <->
      exists p, p ∈ rows (products stocked_db) /\ Product.name p = n /\
        exists a b,
          Sql.fold_str Sql.Postgres (Product.name p)
          = String.append a
              (String.append (Sql.fold_str Sql.Postgres (py_lower "PRO")) b).
Proof.
  apply (products_by_name_exact Sql.Postgres stocked_db "PRO"); reflexivity.
Defined.

(** X16. With the empty query [get_products_by_name] lists every product
    name; on a store without products it answers the empty list where
    [get_all_products] answers [None]. *)
Theorem products_by_empty_name (d : Sql.Dialect) (db : Session) :
  get_products_by_name d db "" = Some (map Product.name (rows (products db))) /\
  (get_all_products db = None <-> get_products_by_name d db "" = Some []).
Proof.
  assert (get_products_by_name d db ""
          = Some (map Product.name (rows (products db)))) as H.
  { unfold get_products_by_name. simpl py_lower. by rewrite filter_empty_query. }
  split; [exact H|]. rewrite H. unfold get_all_products.
  destruct (rows (products db)); simpl; split; intros E; done.
Qed.

(** *** The queries after a run *)

Lemma addresses_unique_after pol db feed :
  NoDup (map Location.address (rows (locations db))) ->
  NoDup (map Location.address (rows (locations (update_db pol db feed).1))).
Proof.
  intros Hl. destruct (locations_after pol db feed) as (added & -> & Hnames).
  rewrite map_app, Hnames, new_locations_queue.
  pose proof (enqueue_all_ok (location_ids (rows (locations db)))
                (map (fun it => address (location it)) feed) (∅, [])
                (queue_ok_init _)) as (_ & Hnd & Hnew).
  apply NoDup_app. split_and!; [done| |done].
  intros n Hn Hq. apply Hnew in Hq. by apply location_ids_None in Hq.
Qed.

(** The product query finds a row for the name of a batch record that
    holds no escape character. *)
Lemma product_found d pol db feed c :
  c ∈ feed ->
  Sql.no_escape (Sql.escape d) (name (product c)) = true ->
  exists p,
    List.find (name_ilike d (name (product c)))
      (rows (products (update_db pol db feed).1)) = Some p /\
    p ∈ rows (products (update_db pol db feed).1) /\
    name_ilike d (name (product c)) p = true.
Proof.
  intros Hin He. pose proof (names_stored pol db feed c Hin) as Hn.
  apply list_elem_of_fmap in Hn as (p0 & Hname & Hp0).
  destruct (find_is_Some (name_ilike d (name (product c))) _ p0 Hp0) as (p & Hfind).
  - unfold name_ilike. rewrite <- Hname. by apply ilike_self.
  - exists p. split; [done|]. by apply find_elem.
Qed.

Lemma locations_of_product_elem db k lo :
  lo ∈ locations_of_product db k <->
  lo ∈ rows (locations db) /\
  exists r, r ∈ rows (location_products db) /\
    Location.id lo = LocationProduct.location_id r /\
    LocationProduct.product_id r = k.
Proof.
  unfold locations_of_product. rewrite list_elem_of_bind. split.
  - intros (l & Hin & Hl). apply list_elem_of_bind in Hin as (r & Hin & Hr).
    destruct (Z.eqb_spec (Location.id l) (LocationProduct.location_id r));
      destruct (Z.eqb_spec (LocationProduct.product_id r) k); simpl in Hin;
      try (by apply elem_of_nil in Hin).
    apply list_elem_of_singleton in Hin. subst lo. eauto.
  - intros (Hlo & r & Hr & Hid & Hk). exists lo. split; [|done].
    apply list_elem_of_bind. exists r. split; [|done].
    rewrite (proj2 (Z.eqb_eq _ _) Hid), (proj2 (Z.eqb_eq _ _) Hk). simpl.
    by apply list_elem_of_singleton.
Qed.

(** X12. Price round trip. Let [c] be the first record of the batch filed
    under its pair, with a trimmed address and a name without the
    engine's escape character, in a run from a store without repeated
    addresses. If every product row the pattern of [c]'s name matches
    after the run has the product key of the pair, then
    [get_product_price], asked for the name and the address of [c],
    answers the price stored for [c]. *)
Theorem price_round_trip (d : Sql.Dialect) (pol : KeyPolicy) (db : Session)
    (pre post : list LocationProductSchema) (c : LocationProductSchema)
    (l : Z * Z * Z) :
  let feed := pre ++ c :: post in
  NoDup (map Location.address (rows (locations db))) ->
  resolved pol db feed c = Some l ->
  (forall c', c' ∈ pre -> ¬ filed_under pol db feed c' l.1) ->
  Py.strip (address (location c)) = address (location c) ->
  Sql.no_escape (Sql.escape d) (name (product c)) = true ->
  (forall p, p ∈ rows (products (update_db pol db feed).1) ->
     name_ilike d (name (product c)) p = true -> Product.id p = l.1.1) ->
  get_product_price d (update_db pol db feed).1
    (name (product c)) (address (location c)) = Some l.2.
Proof.
  intros feed Hnd Hc Hpre Haddr Hesc Honly.
  assert (c ∈ feed) as Hin by (apply elem_of_app; right; by left).
  destruct (product_found d pol db feed c Hin Hesc) as (p & Hfind & Hp & Hpm).
  pose proof (Honly p Hp Hpm) as Hpid.
  pose proof Hc as Hc'. apply link_of_Some in Hc' as (_ & _ & Hl & _).
  simpl in Hl. rewrite Haddr in Hl.
  apply location_ids_lookup in Hl as (l0 & Hl0 & Hl0addr & Hl0id).
  destruct (find_is_Some
              (fun lo => String.eqb (Location.address lo) (address (location c)))
              (rows (locations (update_db pol db feed).1)) l0 Hl0)
    as (lo & Hfindl); [by apply String.eqb_eq|].
  destruct (find_elem _ _ _ Hfindl) as [Hlo Hloaddr].
  apply String.eqb_eq in Hloaddr.
  assert (lo = l0) as ->.
  { apply (NoDup_key_inj' Location.address
             (rows (locations (update_db pol db feed).1)));
      [by apply addresses_unique_after|exact Hlo|exact Hl0|congruence]. }
  destruct (links_first pol db pre c post l Hc Hpre) as (row & Hrow & Hdata).
  destruct (find_is_Some
              (fun r => (LocationProduct.product_id r =? Product.id p)
                        && (LocationProduct.location_id r =? Location.id l0))
              (rows (location_products (update_db pol db feed).1)) row Hrow)
    as (r & Hfindr).
  { rewrite Hpid, Hl0id, <- Hdata. simpl. by rewrite !Z.eqb_refl. }
  destruct (find_elem _ _ _ Hfindr) as [Hr Hrk].
  apply andb_true_iff in Hrk as [Hrp Hrl]. apply Z.eqb_eq in Hrp, Hrl.
  assert (r = row) as ->.
  { eapply (NoDup_key_inj' link_key); [apply links_nodup|done|done|].
    unfold link_key. rewrite Hrp, Hrl, Hpid, Hl0id, <- Hdata. done. }
  unfold get_product_price. rewrite Hfind, Hfindl, Hfindr. by rewrite <- Hdata.
Qed.

(** X14. Location round trip. Let [c] be the first record of the batch
    filed under its pair, with a name without the engine's escape
    character. If every product row the pattern of [c]'s name matches
    after the run has the product key of the pair, then
    [get_all_locations_by_product_name], asked for the name of [c],
    returns the location row of the pair, stored under the stripped
    address of [c]. *)
Theorem location_round_trip (d : Sql.Dialect) (pol : KeyPolicy) (db : Session)
    (pre post : list LocationProductSchema) (c : LocationProductSchema)
    (l : Z * Z * Z) :
  let feed := pre ++ c :: post in
  resolved pol db feed c = Some l ->
  (forall c', c' ∈ pre -> ¬ filed_under pol db feed c' l.1) ->
  Sql.no_escape (Sql.escape d) (name (product c)) = true ->
  (forall p, p ∈ rows (products (update_db pol db feed).1) ->
     name_ilike d (name (product c)) p = true -> Product.id p = l.1.1) ->
  exists lo,
    lo ∈ get_all_locations_by_product_name d (update_db pol db feed).1
           (name (product c)) /\
    Location.id lo = l.1.2 /\
    Location.address lo = Py.strip (address (location c)).
Proof.
  intros feed Hc Hpre Hesc Honly.
  assert (c ∈ feed) as Hin by (apply elem_of_app; right; by left).
  destruct (product_found d pol db feed c Hin Hesc) as (p & Hfind & Hp & Hpm).
  pose proof (Honly p Hp Hpm) as Hpid.
  pose proof Hc as Hc'. apply link_of_Some in Hc' as (_ & _ & Hl & _).
  simpl in Hl. apply location_ids_lookup in Hl as (l0 & Hl0 & Hl0addr & Hl0id).
  destruct (links_first pol db pre c post l Hc Hpre) as (row & Hrow & Hdata).
  exists l0. split_and!; [|done..].
  unfold get_all_locations_by_product_name. rewrite Hfind.
  apply locations_of_product_elem. split; [done|].
  exists row. split; [done|]. rewrite Hl0id, Hpid, <- Hdata. done.
Qed.

Ltac forall_rows_by_compute :=
  match goal with
  | |- forall p, p ∈ ?l -> @?P p =>
      apply (proj1 (Forall_forall P l)); apply (bool_decide_unpack _);
      by vm_compute
  end.

Lemma price_round_trip_witness :
  resolved Serial empty_db three_feed (rec "Aspirin" "Main St" (PStr "10"))
  = Some (2, 1, 10) /\
  get_product_price Sql.Postgres (update_db Serial empty_db three_feed).1
    "Aspirin" "Main St" = Some 10.
Proof.
  split; [by vm_compute|].
  apply (price_round_trip Sql.Postgres Serial empty_db
           [rec "Ibuprofen" "Main St" (PStr "7")]
           [rec "Aspirin" "Main St" (PStr "20")]
           (rec "Aspirin" "Main St" (PStr "10")) (2, 1, 10)).
  - constructor.
  - by vm_compute.
  - intros c' Hin. apply list_elem_of_singleton in Hin. subst c'. not_filed.
  - reflexivity.
  - reflexivity.
  - forall_rows_by_compute.
Defined.

Lemma location_round_trip_witness :
  exists lo,
    lo ∈ get_all_locations_by_product_name Sql.Postgres
           (update_db Serial empty_db three_feed).1 "Aspirin" /\
    Location.id lo = 1 /\ Location.address lo = "Main St".
Proof.
  apply (location_round_trip Sql.Postgres Serial empty_db
           [rec "Ibuprofen" "Main St" (PStr "7")]
           [rec "Aspirin" "Main St" (PStr "20")]
           (rec "Aspirin" "Main St" (PStr "10")) (2, 1, 10)).
  - by vm_compute.
  - intros c' Hin. apply list_elem_of_singleton in Hin. subst c'. not_filed.
  - reflexivity.
  - forall_rows_by_compute.
Defined.

(** The record a link row stems from, with the product row and the
    location row its two keys name when keys are distinct. *)
Lemma link_origin pol db feed row p lo :
  keys_ok pol Product.id (products db) ->
  keys_ok pol Location.id (locations db) ->
  row ∈ rows (location_products (update_db pol db feed).1) ->
  p ∈ rows (products (update_db pol db feed).1) ->
  lo ∈ rows (locations (update_db pol db feed).1) ->
  LocationProduct.product_id row = Product.id p ->
  LocationProduct.location_id row = Location.id lo ->
  exists item, item ∈ feed /\
    int (price item) = Some (LocationProduct.price row) /\
    Py.strip (name (product item)) = Product.name p /\
    Py.strip (address (location item)) = Location.address lo.
Proof.
  intros Hpk Hlk Hrow Hp Hlo Hpid Hlid.
  destruct (links_source pol db feed row Hrow) as (pre & c & post & -> & Hc & _).
  apply link_of_Some in Hc as (Hint & Hpn & Hla & _). simpl in Hint, Hpn, Hla.
  apply product_ids_lookup in Hpn as (p1 & Hp1 & Hp1n & Hp1id).
  apply location_ids_lookup in Hla as (l1 & Hl1 & Hl1a & Hl1id).
  destruct (products_ok_after pol db (pre ++ c :: post) Hpk) as (Hndp & _).
  destruct (locations_ok_after pol db (pre ++ c :: post) Hlk) as (Hndl & _).
  assert (p1 = p) as ->.
  { apply (NoDup_key_inj' Product.id
             (rows (products (update_db pol db (pre ++ c :: post)).1)));
      [exact Hndp|exact Hp1|exact Hp|congruence]. }
  assert (l1 = lo) as ->.
  { apply (NoDup_key_inj' Location.id
             (rows (locations (update_db pol db (pre ++ c :: post)).1)));
      [exact Hndl|exact Hl1|exact Hlo|congruence]. }
  exists c. split_and!; [|done..]. apply elem_of_app. right. by left.
Qed.

(** X13. Every price answered comes from the batch: after a run from a
    store with sound keys, a price [get_product_price] answers for a name
    and an address is the converted price of a record of the batch whose
    stripped address is that address and whose stripped name the engine
    matches against the pattern of the queried name. *)
Theorem price_answer_from_batch (d : Sql.Dialect) (pol : KeyPolicy)
    (db : Session) (feed : list LocationProductSchema) (q a : string) (v : Z) :
  keys_ok pol Product.id (products db) ->
  keys_ok pol Location.id (locations db) ->
  get_product_price d (update_db pol db feed).1 q a = Some v ->
  exists item, item ∈ feed /\
    int (price item) = Some v /\
    Py.strip (address (location item)) = a /\
    Sql.ilike d (contains_pattern q) (Py.strip (name (product item))) = true.
Proof.
  intros Hpk Hlk. unfold get_product_price.
  destruct (List.find (name_ilike d q) _) as [p|] eqn:Ep; [|done].
  destruct (List.find (fun l => String.eqb (Location.address l) a) _)
    as [lo|] eqn:El; [|done].
  destruct (List.find _ (rows (location_products _))) as [r|] eqn:Er; [|done].
  intros [= <-].
  apply find_elem in Ep as [Hp Hpm]. apply find_elem in El as [Hlo Hla].
  apply find_elem in Er as [Hr Hrk].
  apply String.eqb_eq in Hla.
  apply andb_true_iff in Hrk as [Hrp Hrl]. apply Z.eqb_eq in Hrp, Hrl.
  destruct (link_origin pol db feed r p lo Hpk Hlk Hr Hp Hlo Hrp Hrl)
    as (item & Hin & Hint & Hname & Haddr).
  exists item. split_and!; [done|done|congruence|].
  rewrite Hname. exact Hpm.
Qed.

Lemma price_answer_from_batch_witness :
  exists item, item ∈ odd_feed /\
    int (price item) = Some 1 /\
    Py.strip (address (location item)) = "Main St" /\
    Sql.ilike Sql.Postgres (contains_pattern eclair_query)
      (Py.strip (name (product item))) = true.
Proof.
  apply (price_answer_from_batch Sql.Postgres Serial empty_db odd_feed
           eclair_query "Main St" 1).
  - keys_ok_by_compute.
  - keys_ok_by_compute.
  - by vm_compute.
Defined.

(** X15. Every location answered comes from the batch: after a run from
    a store with sound keys, a location [get_all_locations_by_product_name]
    returns is stored under the stripped address of a record of the batch
    whose price converts and whose stripped name the engine matches
    against the pattern of the queried name. *)
Theorem locations_answer_from_batch (d : Sql.Dialect) (pol : KeyPolicy)
    (db : Session) (feed : list LocationProductSchema) (q : string)
    (lo : Location.t) :
  keys_ok pol Product.id (products db) ->
  keys_ok pol Location.id (locations db) ->
  lo ∈ get_all_locations_by_product_name d (update_db pol db feed).1 q ->
  exists item, item ∈ feed /\
    is_Some (int (price item)) /\
    Py.strip (address (location item)) = Location.address lo /\
    Sql.ilike d (contains_pattern q) (Py.strip (name (product item))) = true.
Proof.
  intros Hpk Hlk. unfold get_all_locations_by_product_name.
  destruct (List.find (name_ilike d q) _) as [p|] eqn:Ep;
    [|intros H; by apply elem_of_nil in H].
  intros H. apply locations_of_product_elem in H as (Hlo & r & Hr & Hlid & Hpid).
  apply find_elem in Ep as [Hp Hpm].
  destruct (link_origin pol db feed r p lo Hpk Hlk Hr Hp Hlo Hpid (eq_sym Hlid))
    as (item & Hin & Hint & Hname & Haddr).
  exists item. split_and!; [done|by eauto|done|].
  rewrite Hname. exact Hpm.
Qed.

Lemma locations_answer_from_batch_witness :
  exists item, item ∈ odd_feed /\
    is_Some (int (price item)) /\
    Py.strip (address (location item)) = "Main St" /\
    Sql.ilike Sql.Sqlite (contains_pattern "A\B")
      (Py.strip (name (product item))) = true.
Proof.
  apply (locations_answer_from_batch Sql.Sqlite Rowid empty_db odd_feed "A\B"
           {| Location.id := 1; Location.address := "Main St";
              Location.phone := None |}).
  - split_and!; [constructor|constructor|done].
  - split_and!; [constructor|constructor|done].
  - vm_compute. constructor.
Defined.

(** X19. An empty product name is not turned down: its pattern matches
    every name, so both queries go by the first product row of the table,
    and answer as for a missing product only when the table is empty. *)
Theorem empty_name_takes_first_product (d : Sql.Dialect) (db : Session)
    (a : string) :
  List.find (name_ilike d "") (rows (products db)) = head (rows (products db)) /\
  get_all_locations_by_product_name d db ""
  = match head (rows (products db)) with
    | None => []
    | Some p => locations_of_product db (Product.id p)
    end /\
  (rows (products db) = [] -> get_product_price d db "" a = None).
Proof.
  assert (List.find (name_ilike d "") (rows (products db))
          = head (rows (products db))) as H.
  { destruct (rows (products db)) as [|p ps]; simpl; [done|].
    unfold name_ilike.
    by rewrite (ilike_contains d "" (Product.name p) ""
                  (Sql.fold_str d (Product.name p))). }
  split_and!; [exact H| |].
  - unfold get_all_locations_by_product_name. by rewrite H.
  - intros E. unfold get_product_price. by rewrite E.
Qed.

Lemma known_ids_stable_witness :
  product_ids (rows (products stocked_db)) !! "Ibuprofen" = Some 2 /\
  product_ids (rows (products (update_db Serial stocked_db mixed_feed).1))
    !! "Ibuprofen" = Some 2.
Proof.
  split; [by vm_compute|].
  apply (proj1 (known_ids_stable Serial stocked_db mixed_feed "Ibuprofen" 2)).
  by vm_compute.
Defined.

(** The same queries on the two engines: a backslash in the name hides
    the product from its own name on [Postgres], and a Latin-1 capital
    is matched by its small letter on [Postgres] only. *)
Example queries_by_engine :
  get_product_price Sql.Postgres odd_names_db "a\b" "Main St" = None /\
  get_product_price Sql.Sqlite odd_names_db "a\b" "Main St" = Some 3 /\
  get_product_price Sql.Postgres odd_names_db eclair_query "Main St" = Some 1 /\
  get_product_price Sql.Sqlite odd_names_db eclair_query "Main St" = None /\
  get_products_by_name Sql.Postgres odd_names_db "A\B" = Some [] /\
  get_products_by_name Sql.Sqlite odd_names_db "A\B" = Some ["a\b"].
Proof. by vm_compute. Qed.

(** Every string is its stripped part between a run of leading and a
    run of trailing whitespace. *)
Lemma lstrip_decompose s :
  exists lp, all_space lp = true /\ s = String.append lp (Py.lstrip s) /\
             starts_with_space (Py.lstrip s) = false.
Proof.
  induction s as [|c s (lp & Hlp & Hs & Hh)].
  - by exists EmptyString.
  - simpl Py.lstrip. destruct (Py.is_space c) eqn:Ec.
    + exists (String c lp). split_and!; [simpl; by rewrite Ec, Hlp| |done].
      rewrite append_cons. by f_equal.
    + exists EmptyString. split_and!; [done|done|]. simpl. exact Ec.
Qed.

Lemma rstrip_decompose t :
  exists rp, all_space rp = true /\ t = String.append (Py.rstrip t) rp /\
             ends_with_space (Py.rstrip t) = false.
Proof.
  induction t as [|c t (rp & Hrp & Ht & He)].
  - by exists EmptyString.
  - simpl Py.rstrip. destruct (Py.rstrip t) as [|d u] eqn:E.
    + rewrite append_nil in Ht. destruct (Py.is_space c) eqn:Ec.
      * exists (String c rp). split_and!; [simpl; by rewrite Ec, Hrp| |done].
        rewrite append_nil. by f_equal.
      * exists rp. split_and!; [done| |simpl; exact Ec].
        rewrite append_cons, append_nil. by f_equal.
    + exists rp. split_and!; [done| |exact He].
      rewrite append_cons. by f_equal.
Qed.

Lemma rstrip_keeps_head t :
  starts_with_space t = false -> starts_with_space (Py.rstrip t) = false.
Proof.
  destruct t as [|c t]; simpl; [done|]. intros Hc.
  destruct (Py.rstrip t); [by rewrite Hc|done].
Qed.

Lemma strip_decompose s :
  exists lp rp,
    all_space lp = true /\ all_space rp = true /\
    s = String.append lp (String.append (Py.strip s) rp) /\
    starts_with_space (Py.strip s) = false /\
    ends_with_space (Py.strip s) = false.
Proof.
  destruct (lstrip_decompose s) as (lp & Hlp & Hs & Hh).
  destruct (rstrip_decompose (Py.lstrip s)) as (rp & Hrp & Ht & He).
  exists lp, rp. unfold Py.strip. split_and!; [done|done| |by apply rstrip_keeps_head|done].
  by rewrite <- Ht.
Qed.
